(** * stm32crc_tricks: the piecewise, byte-ordered CRC-32 of [crc32_demo.c]

    A shallow embedding of [crc32start], [crc32process], [crc32finish],
    the helper [crc32lt4bytes], the simulated CRC peripheral
    ([CRC_RESET], [CRC_READ], [CRC_PROCESS_WORD]) and the reference shift
    register [cleverCRC], followed by the properties of the three-call
    protocol.

    Conventions.
    - A [uint32_t] is a [Z] in [0, 2^32); every left shift is truncated
      with [u32], as C does on [uint32_t].
    - Memory is a total map from addresses to bytes; a pointer is an
      address.  [int numBytes] is a [Z]; the code only ever subtracts from
      it, so no signed overflow arises for a non-negative length.
    - The two module-level variables [periphCRC] and [extraCRC] form the
      state, threaded through a small state monad.  The state also carries
      [bus], a log of the reset and write-word operations performed on the
      peripheral; it is ghost data, never read by the code. *)

From Stdlib Require Import ZArith List Lia Bool Btauto.
From coqutil Require Import Byte Z.bitblast.
Import ListNotations.
Local Open Scope Z_scope.

(* ================================================================== *)
(** * Machine integers and memory *)

Definition u32 (x : Z) : Z := x mod 2 ^ 32.

Definition is_u32 (x : Z) : Prop := 0 <= x < 2 ^ 32.

(** [<<] on [uint32_t]. *)
Definition shl32 (x n : Z) : Z := u32 (Z.shiftl x n).

Definition memory : Type := Z -> byte.

(** [pData[i]] read through a [uint8_t *]. *)
Definition load8 (mem : memory) (a : Z) : Z := byte.unsigned (mem a).

(** [__BYTE_ORDER__] of the machine the code is compiled for. *)
Inductive byte_order : Type := LittleEndian | BigEndian.

(** [__builtin_bswap32]. *)
Definition bswap32 (w : Z) : Z :=
  Z.lor (Z.lor (shl32 (Z.land w 0xff) 24)
               (shl32 (Z.land (Z.shiftr w 8) 0xff) 16))
        (Z.lor (shl32 (Z.land (Z.shiftr w 16) 0xff) 8)
               (Z.land (Z.shiftr w 24) 0xff)).

(** The macro [__REV]: a byte swap on a little-endian machine, the
    identity otherwise. *)
Definition REV (order : byte_order) (word : Z) : Z :=
  match order with
  | LittleEndian => bswap32 word
  | BigEndian => word
  end.

(** [*pData32]: the four bytes at [a] read as one [uint32_t]. *)
Definition load32 (order : byte_order) (mem : memory) (a : Z) : Z :=
  match order with
  | LittleEndian =>
      Z.lor (Z.lor (load8 mem a) (shl32 (load8 mem (a + 1)) 8))
            (Z.lor (shl32 (load8 mem (a + 2)) 16) (shl32 (load8 mem (a + 3)) 24))
  | BigEndian =>
      Z.lor (Z.lor (shl32 (load8 mem a) 24) (shl32 (load8 mem (a + 1)) 16))
            (Z.lor (shl32 (load8 mem (a + 2)) 8) (load8 mem (a + 3)))
  end.

(** The bytes of a local [uint32_t temp] as [cleverCRC] sees them through
    a byte pointer to it; the object is placed at address 0. *)
Definition word_object (order : byte_order) (temp : Z) : memory :=
  fun a =>
    match order with
    | LittleEndian => byte.of_Z (Z.shiftr temp (8 * a))
    | BigEndian => byte.of_Z (Z.shiftr temp (8 * (3 - a)))
    end.

(* ================================================================== *)
(** * The reference shift register, [cleverCRC] *)

Definition POLY : Z := 0x04c11db7.

(** One pass of the body of the inner loop, for the bit selected by
    [bitMask]. *)
Definition crc_bit_step (data crcReg bitMask : Z) : Z :=
  let dataBit := if Z.land data bitMask =? 0 then 0 else 1 in
  let popCrc := Z.lxor (Z.land (Z.shiftr crcReg 31) 1) dataBit in
  let crcReg := shl32 crcReg 1 in
  if popCrc =? 0 then crcReg else Z.lxor crcReg POLY.

(** [for (uint16_t bitMask = 0x080; bitMask; bitMask >>= 1)]. *)
Fixpoint bit_loop (fuel : nat) (data bitMask crcReg : Z) : Z :=
  match fuel with
  | O => crcReg
  | S fuel =>
      if bitMask =? 0 then crcReg
      else bit_loop fuel data (Z.shiftr bitMask 1)
                    (crc_bit_step data crcReg bitMask)
  end.

(** A [uint16_t] mask is exhausted after at most sixteen right shifts. *)
Definition bit_fuel : nat := 16.

(** [for ( ; numBytes > 0; numBytes -= 1)]. *)
Fixpoint cleverCRC_loop (fuel : nat) (mem : memory)
         (crcReg pData numBytes : Z) : Z :=
  match fuel with
  | O => crcReg
  | S fuel =>
      if 0 <? numBytes then
        cleverCRC_loop fuel mem
          (bit_loop bit_fuel (load8 mem pData) 0x080 crcReg)
          (pData + 1) (numBytes - 1)
      else crcReg
  end.

Definition cleverCRC (mem : memory) (crcReg pData numBytes : Z) : Z :=
  cleverCRC_loop (Z.to_nat numBytes) mem crcReg pData numBytes.

(* ================================================================== *)
(** * Engine state and the state monad *)

(** What the peripheral was asked to do. *)
Inductive event : Type :=
| EvReset
| EvWrite (word : Z).

Record state : Type := mkState {
  periphCRC : Z;        (* value held by the (simulated) peripheral *)
  extraCRC : Z;         (* bits still to be XORed into the CRC *)
  bus : list event      (* ghost: operations issued so far, oldest first *)
}.

Definition M (A : Type) : Type := state -> A * state.

Definition ret {A : Type} (a : A) : M A := fun s => (a, s).

Definition bind {A B : Type} (m : M A) (k : A -> M B) : M B :=
  fun s => let (a, s') := m s in k a s'.

Declare Scope crc_scope.
Delimit Scope crc_scope with crc.
Notation "x <- m ;; k" := (bind m (fun x => k))
  (at level 61, m at next level, right associativity) : crc_scope.
Notation "' pat <- m ;; k" := (bind m (fun x => match x with pat => k end))
  (at level 61, pat pattern, m at next level, right associativity) : crc_scope.
Notation "m ;;; k" := (bind m (fun _ => k))
  (at level 61, right associativity) : crc_scope.
Local Open Scope crc_scope.

Definition exec {A : Type} (m : M A) (s : state) : state := snd (m s).
Definition eval {A : Type} (m : M A) (s : state) : A := fst (m s).

Definition get_extraCRC : M Z := fun s => (extraCRC s, s).

Definition set_extraCRC (v : Z) : M unit :=
  fun s => (tt, mkState (periphCRC s) v (bus s)).

(* ================================================================== *)
(** * The simulated peripheral *)

Section Engine.

Variable order : byte_order.

Definition CRC_RESET : M unit :=
  fun s => (tt, mkState 0xffffffff (extraCRC s) (bus s ++ [EvReset])).

Definition CRC_READ : M Z := fun s => (periphCRC s, s).

Definition CRC_PROCESS_WORD (word : Z) : M unit :=
  fun s =>
    let temp := REV order word in
    (tt, mkState (cleverCRC (word_object order temp) (periphCRC s) 0 4)
                 (extraCRC s)
                 (bus s ++ [EvWrite word])).

(* ================================================================== *)
(** * The three operations and the helper *)

Definition crc32start (initialValue : Z) : M unit :=
  CRC_RESET ;;;
  set_extraCRC 0xffffffff ;;;
  e <- get_extraCRC ;;
  set_extraCRC (Z.lxor e initialValue).

(** The [switch] of [crc32lt4bytes]; returns the locals [dataBytes] and
    [val] as they stand when the switch is left. *)
Definition lt4_switch (mem : memory) (pData numBytes oldCRC val dataBytes : Z)
  : M (Z * Z) :=
  if numBytes =? 1 then
    let dataBytes := Z.lxor dataBytes (Z.land (load8 mem pData) 0x000000ff) in
    set_extraCRC (shl32 oldCRC 8) ;;;
    let val := Z.lxor val dataBytes in
    let val := Z.lxor val (Z.land (Z.shiftr oldCRC 24) 0x000000ff) in
    ret (dataBytes, val)
  else if numBytes =? 2 then
    let dataBytes :=
      Z.lxor dataBytes (Z.land (shl32 (load8 mem pData) 8) 0x0000ff00) in
    let dataBytes :=
      Z.lxor dataBytes (Z.land (shl32 (load8 mem (pData + 1)) 0) 0x000000ff) in
    set_extraCRC (shl32 oldCRC 16) ;;;
    let val := Z.lxor val dataBytes in
    let val := Z.lxor val (Z.land (Z.shiftr oldCRC 16) 0x0000ffff) in
    ret (dataBytes, val)
  else
    (* case 3: and default: *)
    let val := Z.lxor val (Z.land (shl32 (load8 mem pData) 16) 0x00ff0000) in
    let val := Z.lxor val (Z.land (shl32 (load8 mem (pData + 1)) 8) 0x0000ff00) in
    let val := Z.lxor val (Z.land (shl32 (load8 mem (pData + 2)) 0) 0x000000ff) in
    set_extraCRC (shl32 oldCRC 24) ;;;
    let val := Z.lxor val dataBytes in
    let val := Z.lxor val (Z.land (Z.shiftr oldCRC 8) 0x00ffffff) in
    ret (dataBytes, val).

(** Everything up to, but not including, the final [CRC_PROCESS_WORD]. *)
Definition lt4_prepare (mem : memory) (pData numBytes : Z) : M (Z * Z) :=
  oldCRC <- CRC_READ ;;
  let val := oldCRC in
  e <- get_extraCRC ;;
  let oldCRC := Z.lxor oldCRC e in
  let dataBytes := 0 in
  lt4_switch mem pData numBytes oldCRC val dataBytes.

Definition crc32lt4bytes (mem : memory) (pData numBytes : Z) : M unit :=
  if numBytes =? 0 then ret tt
  else
    '(_, val) <- lt4_prepare mem pData numBytes ;;
    CRC_PROCESS_WORD val.

(** First block of [crc32process]: bring [pData] to a word address.
    Returns the updated [pData] and [numBytes]. *)
Definition head_phase (mem : memory) (pData numBytes : Z) : M (Z * Z) :=
  let startBytes := pData mod 4 in
  if negb (0 =? startBytes) then
    let startBytes := 4 - startBytes in
    let startBytes := if startBytes >? numBytes then numBytes else startBytes in
    crc32lt4bytes mem pData startBytes ;;;
    ret (pData + startBytes, numBytes - startBytes)
  else ret (pData, numBytes).

(** [for ( ; numBytes >= 4; numBytes -= 4)]. *)
Fixpoint word_loop (fuel : nat) (mem : memory) (pData32 numBytes : Z)
  : M (Z * Z) :=
  match fuel with
  | O => ret (pData32, numBytes)
  | S fuel =>
      if numBytes >=? 4 then
        CRC_PROCESS_WORD (REV order (load32 order mem pData32)) ;;;
        word_loop fuel mem (pData32 + 4) (numBytes - 4)
      else ret (pData32, numBytes)
  end.

(** The unrolled first iteration: the first word of the call takes
    [extraCRC] with it. *)
Definition first_word (mem : memory) (pData32 : Z) : M unit :=
  e <- get_extraCRC ;;
  CRC_PROCESS_WORD (Z.lxor (REV order (load32 order mem pData32)) e) ;;;
  set_extraCRC 0.

(** Second block: a word at a time.  Returns [pData32] and [numBytes]. *)
Definition bulk_phase (mem : memory) (pData numBytes : Z) : M (Z * Z) :=
  let pData32 := pData in
  if numBytes >=? 4 then
    first_word mem pData32 ;;;
    let pData32 := pData32 + 4 in
    let numBytes := numBytes - 4 in
    word_loop (Z.to_nat numBytes) mem pData32 numBytes
  else ret (pData32, numBytes).

(** Third block: the bytes that remain. *)
Definition tail_phase (mem : memory) (pData32 numBytes : Z) : M unit :=
  if negb (0 =? numBytes) then
    let pData := pData32 in
    crc32lt4bytes mem pData numBytes
  else ret tt.

Definition crc32process (mem : memory) (pData numBytes : Z) : M unit :=
  '(pData, numBytes) <- head_phase mem pData numBytes ;;
  '(pData32, numBytes) <- bulk_phase mem pData numBytes ;;
  tail_phase mem pData32 numBytes.

Definition crc32finish : M Z :=
  crc32 <- CRC_READ ;;
  e <- get_extraCRC ;;
  let crc32 := Z.lxor crc32 e in
  ret crc32.

End Engine.

(* ================================================================== *)
(** * Specification-level definitions *)

(** ** The reference CRC, in the specification's words

    A bit-serial shift register of 32 bits with polynomial 0x04C11DB7:
    each data bit is XORed with the bit leaving the top of the register,
    the register moves up by one, and the polynomial is XORed in when
    that XOR is one.  The bits of a byte are taken most significant
    first, the bytes in sequence order. *)

Definition serial_bit (reg : Z) (b : bool) : Z :=
  let top := xorb (Z.testbit reg 31) b in
  let reg := (2 * reg) mod 2 ^ 32 in
  if top then Z.lxor reg 0x04C11DB7 else reg.

Definition msb_first (d : byte) : list bool :=
  map (Z.testbit (byte.unsigned d)) [7; 6; 5; 4; 3; 2; 1; 0].

Definition serial_byte (reg : Z) (d : byte) : Z :=
  fold_left serial_bit (msb_first d) reg.

Definition bit_serial_crc (init : Z) (D : list byte) : Z :=
  fold_left serial_byte D init.

(** ** The register as a linear map

    [shift0] shifts one zero bit in; [shiftN k] does so [k] times. *)

Definition shift0 (r : Z) : Z :=
  Z.lxor (shl32 r 1) (if Z.testbit r 31 then POLY else 0).

Definition shiftN (k : nat) (r : Z) : Z := Nat.iter k shift0 r.

(** Bits, then bytes, laid into a 32-bit word from bit [31 - k] (byte
    position [3 - k / 8]) downwards. *)
Fixpoint place_bits (k : nat) (bits : list bool) : Z :=
  match bits with
  | [] => 0
  | b :: bits => Z.lxor (if b then 2 ^ (31 - Z.of_nat k) else 0) (place_bits (S k) bits)
  end.

Fixpoint place_bytes (k : nat) (ds : list byte) : Z :=
  match ds with
  | [] => 0
  | d :: ds => Z.lxor (Z.shiftl (byte.unsigned d) (24 - Z.of_nat k)) (place_bytes (8 + k) ds)
  end.

(** ** Views of memory and of the state *)

(** The bytes [mem[p], ..., mem[p+n-1]]. *)
Definition bytes_at (mem : memory) (p : Z) (n : nat) : list byte :=
  map (fun i => mem (p + Z.of_nat i)) (seq 0 n).

(** The value with [d0] as most significant byte ... [d3] as least. *)
Definition be32 (d0 d1 d2 d3 : Z) : Z :=
  Z.lxor (Z.shiftl d0 24) (Z.lxor (Z.shiftl d1 16) (Z.lxor (Z.shiftl d2 8) d3)).

(** "The current CRC is the XOR of the value in the peripheral and of
    [extraCRC]." *)
Definition true_crc (s : state) : Z := Z.lxor (periphCRC s) (extraCRC s).

(** Both [uint32_t] variables hold 32-bit values. *)
Definition wf (s : state) : Prop := is_u32 (periphCRC s) /\ is_u32 (extraCRC s).

(** The bytes as one number, first byte most significant: they occupy
    the [length ds] least-significant byte positions. *)
Definition data_word (ds : list byte) : Z :=
  fold_left (fun acc d => Z.lor (Z.shiftl acc 8) (byte.unsigned d)) ds 0.

(** The word written by the sub-word corrector. *)
Definition lt4_val (mem : memory) (p n : Z) (s : state) : Z :=
  Z.lxor (periphCRC s)
         (Z.lxor (data_word (bytes_at mem p (Z.to_nat n)))
                 (Z.shiftr (true_crc s) (32 - 8 * n))).

(** The [q] words at [p], each with its first byte most significant:
    what [__REV( *pData32 )] yields for successive [pData32]. *)
Fixpoint words_at (mem : memory) (p : Z) (q : nat) : list Z :=
  match q with
  | O => []
  | S q => place_bytes 0 (bytes_at mem p 4) :: words_at mem (p + 4) q
  end.

(** A byte sequence laid out in memory from address [p] on. *)
Definition mem_at (p : Z) (D : list byte) : memory :=
  fun a => nth (Z.to_nat (a - p)) D Byte.x00.

(** The data-bearing part of the local [val] of [crc32lt4bytes] when the
    switch is left: [val] with the peripheral reading it was initialised
    to, and the shifted old CRC, taken out again. *)
Definition lt4_dataWord (mem : memory) (pData numBytes : Z) (s : state) : Z :=
  let val := snd (eval (lt4_prepare mem pData numBytes) s) in
  Z.lxor (Z.lxor val (periphCRC s)) (Z.shiftr (true_crc s) (32 - 8 * numBytes)).

(** Byte [j] of a word, counted from the least significant. *)
Definition byte_of (w j : Z) : Z := Z.land (Z.shiftr w (8 * j)) 0xff.

(** The data word as the specification words it: the bytes in the most
    significant byte positions, first byte topmost, zero elsewhere. *)
Definition dataWord_msb (ds : list byte) : Z := place_bytes 0 ds.

(** XOR [e] into the first word of a list of words. *)
Definition xor_first (e : Z) (ws : list Z) : list Z :=
  match ws with
  | [] => []
  | w :: ws => Z.lxor w e :: ws
  end.

(** A byte sequence cut into words of four bytes, first byte most
    significant. *)
Fixpoint be_words (D : list byte) : list Z :=
  match D with
  | a :: b :: c :: d :: rest => place_bytes 0 [a; b; c; d] :: be_words rest
  | _ => []
  end.

(** A range that starts at a word address and holds whole words only. *)
Definition whole_words (c : Z * list byte) : Prop :=
  fst c mod 4 = 0 /\ exists q : nat, length (snd c) = (4 * q)%nat.

(** ** Concrete data *)

(** The eleven bytes of the worked example of the document. *)
Definition worked_bytes : list byte :=
  [Byte.x12; Byte.x34; Byte.x56; Byte.x78; Byte.x9a; Byte.xbc; Byte.xde;
   Byte.xf0; Byte.xa6; Byte.xb7; Byte.xc8].

(** Inputs at which the statements below are instantiated. *)
Definition demo_state : state := mkState 0 0 [].

Definition demo_tail_state : state := mkState 0x7D24A31B 0 [].

Definition demo_tail_mem : memory := mem_at 0x108 [Byte.xa6; Byte.xb7; Byte.xc8].

Definition demo_chunks : list (Z * list byte) :=
  [(0x101, [Byte.x12; Byte.x34; Byte.x56]);
   (0x203, [Byte.x78; Byte.x9a; Byte.xbc; Byte.xde; Byte.xf0]);
   (0x300, [Byte.xa6; Byte.xb7; Byte.xc8])].

Definition demo_word_chunks : list (Z * list byte) :=
  [(0x100, [Byte.x12; Byte.x34; Byte.x56; Byte.x78]);
   (0x200, [Byte.x9a; Byte.xbc; Byte.xde; Byte.xf0;
            Byte.xa6; Byte.xb7; Byte.xc8; Byte.x00])].

(** ** Sessions *)

Section Session.

Variable order : byte_order.

(** One [crc32process] call on the byte range [snd c] found at address
    [fst c]. *)
Definition feed (c : Z * list byte) : M unit :=
  crc32process order (mem_at (fst c) (snd c)) (fst c) (Z.of_nat (length (snd c))).

Fixpoint feed_all (chunks : list (Z * list byte)) : M unit :=
  match chunks with
  | [] => ret tt
  | c :: chunks => feed c ;;; feed_all chunks
  end.

(** [crc32start], then one [crc32process] per range, then [crc32finish]. *)
Definition session (initialValue : Z) (chunks : list (Z * list byte)) : M Z :=
  crc32start initialValue ;;; feed_all chunks ;;; crc32finish.

(** States at the boundaries between the operations of one session that
    began with [crc32start initialValue], with the bytes fed so far. *)
Inductive boundary (initialValue : Z) : list byte -> state -> Prop :=
| after_start s0 :
    boundary initialValue [] (exec (crc32start initialValue) s0)
| after_process fed s mem pData numBytes :
    boundary initialValue fed s ->
    0 <= numBytes ->
    boundary initialValue (fed ++ bytes_at mem pData (Z.to_nat numBytes))
             (exec (crc32process order mem pData numBytes) s)
| after_finish fed s :
    boundary initialValue fed s ->
    boundary initialValue fed (exec crc32finish s).

End Session.

(* ================================================================== *)
(** * The shift register as XOR-linear algebra *)

Lemma u32_is_u32 x : is_u32 (u32 x).
Proof. unfold is_u32, u32. apply Z.mod_pos_bound. reflexivity. Qed.

Lemma u32_id x : is_u32 x -> u32 x = x.
Proof. intros H. apply Z.mod_small. exact H. Qed.

Lemma is_u32_fix x : x = u32 x -> is_u32 x.
Proof. intros ->. apply u32_is_u32. Qed.

Lemma lxor_is_u32 a b : is_u32 a -> is_u32 b -> is_u32 (Z.lxor a b).
Proof.
  intros Ha Hb. apply is_u32_fix.
  rewrite <- (u32_id a Ha), <- (u32_id b Hb). unfold u32. Z.bitblast.
Qed.

Lemma POLY_is_u32 : is_u32 POLY.
Proof. unfold is_u32, POLY. lia. Qed.

Lemma shift0_is_u32 r : is_u32 (shift0 r).
Proof.
  unfold shift0. apply lxor_is_u32.
  - apply u32_is_u32.
  - destruct (Z.testbit r 31); [apply POLY_is_u32 | unfold is_u32; lia].
Qed.

Lemma shift0_lxor a b : shift0 (Z.lxor a b) = Z.lxor (shift0 a) (shift0 b).
Proof.
  unfold shift0, shl32, u32. rewrite Z.lxor_spec.
  destruct (Z.testbit a 31), (Z.testbit b 31); cbn [xorb]; Z.bitblast.
Qed.

Lemma shiftN_S k r : shiftN (S k) r = shift0 (shiftN k r).
Proof. reflexivity. Qed.

Lemma shiftN_lxor k a b : shiftN k (Z.lxor a b) = Z.lxor (shiftN k a) (shiftN k b).
Proof.
  induction k as [|k IH]; [reflexivity|].
  rewrite !shiftN_S, IH. apply shift0_lxor.
Qed.

Lemma shiftN_add j k r : shiftN (j + k) r = shiftN j (shiftN k r).
Proof. unfold shiftN. apply Nat.iter_add. Qed.

Lemma shiftN_succ_r k r : shiftN (S k) r = shiftN k (shift0 r).
Proof. unfold shiftN. apply Nat.iter_succ_r. Qed.

Lemma shift0_small r : 0 <= r < 2 ^ 31 -> shift0 r = 2 * r.
Proof.
  intros H. unfold shift0, shl32, u32.
  replace (Z.testbit r 31) with false.
  - rewrite Z.lxor_0_r, Z.shiftl_mul_pow2 by lia. rewrite Z.mod_small; lia.
  - symmetry. destruct (Z.eq_dec r 0) as [->|Hr]; [apply Z.testbit_0_l|].
    apply Z.bits_above_log2; [lia|]. apply Z.log2_lt_pow2; lia.
Qed.

Lemma shiftN_small k r :
  (k <= 32)%nat -> 0 <= r < 2 ^ (32 - Z.of_nat k) -> shiftN k r = r * 2 ^ Z.of_nat k.
Proof.
  revert r. induction k as [|k IH]; intros r Hk Hr.
  - cbn. lia.
  - rewrite shiftN_succ_r.
    assert (Hp : 2 ^ (32 - Z.of_nat k) = 2 * 2 ^ (32 - Z.of_nat (S k))).
    { rewrite <- Z.pow_succ_r by lia. f_equal. lia. }
    assert (H31 : 2 ^ (32 - Z.of_nat (S k)) <= 2 ^ 31).
    { apply Z.pow_le_mono_r; lia. }
    rewrite shift0_small by lia.
    rewrite IH by lia.
    rewrite Nat2Z.inj_succ, Z.pow_succ_r by lia. ring.
Qed.

Lemma shiftN_pow2 k (c : bool) :
  (k <= 31)%nat ->
  shiftN k (if c then 2 ^ (31 - Z.of_nat k) else 0) = (if c then 2 ^ 31 else 0).
Proof.
  intros Hk. destruct c.
  - rewrite shiftN_small.
    + rewrite <- Z.pow_add_r by lia. f_equal. lia.
    + lia.
    + split; [lia|]. apply Z.pow_lt_mono_r; lia.
  - rewrite shiftN_small; [lia | lia |]. split; [lia|]. apply Z.pow_pos_nonneg; lia.
Qed.

(** Feeding a data bit is the same as XORing it into the top of the
    register and then shifting a zero in. *)
Lemma shift0_push k y (c : bool) :
  (k <= 31)%nat ->
  shift0 (Z.lxor (shiftN k y) (if c then 2 ^ 31 else 0)) =
  shiftN (S k) (Z.lxor y (if c then 2 ^ (31 - Z.of_nat k) else 0)).
Proof.
  intros Hk. rewrite shiftN_S, shiftN_lxor, shiftN_pow2 by exact Hk. reflexivity.
Qed.

Lemma land_shiftr31 r : is_u32 r -> Z.land (Z.shiftr r 31) 1 = Z.b2z (Z.testbit r 31).
Proof.
  intros H. rewrite Z.testbit_spec' by lia.
  rewrite Z.shiftr_div_pow2 by lia. change 1 with (Z.ones 1) at 1.
  rewrite Z.land_ones by lia. reflexivity.
Qed.

Lemma shl32_top r : shl32 (Z.lxor r (2 ^ 31)) 1 = shl32 r 1.
Proof.
  unfold shl32, u32. Z.bitblast.
  replace (31 =? l) with false by (symmetry; apply Z.eqb_neq; lia).
  now rewrite xorb_false_r.
Qed.

Lemma crc_bit_step_shift0 data r bitMask :
  is_u32 r ->
  crc_bit_step data r bitMask =
  shift0 (Z.lxor r (if negb (Z.land data bitMask =? 0) then 2 ^ 31 else 0)).
Proof.
  intros H. unfold crc_bit_step, shift0. rewrite land_shiftr31 by exact H.
  destruct (Z.land data bitMask =? 0); cbn [negb].
  - rewrite !Z.lxor_0_r. destruct (Z.testbit r 31); cbn; [reflexivity|].
    now rewrite Z.lxor_0_r.
  - rewrite shl32_top, Z.lxor_spec, Z.pow2_bits_eqb, Z.eqb_refl by lia.
    destruct (Z.testbit r 31); cbn; [now rewrite Z.lxor_0_r | reflexivity].
Qed.

Lemma serial_bit_shift0 r b :
  serial_bit r b = shift0 (Z.lxor r (if b then 2 ^ 31 else 0)).
Proof.
  unfold serial_bit, shift0. fold POLY.
  replace ((2 * r) mod 2 ^ 32) with (shl32 r 1)
    by (unfold shl32, u32; rewrite Z.shiftl_mul_pow2 by lia; f_equal; lia).
  destruct b.
  - rewrite shl32_top, Z.lxor_spec, Z.pow2_bits_eqb, Z.eqb_refl by lia.
    destruct (Z.testbit r 31); cbn; [now rewrite Z.lxor_0_r | reflexivity].
  - rewrite !Z.lxor_0_r, xorb_false_r.
    destruct (Z.testbit r 31); [reflexivity | now rewrite Z.lxor_0_r].
Qed.

Lemma serial_bit_is_u32 r b : is_u32 (serial_bit r b).
Proof. rewrite serial_bit_shift0. apply shift0_is_u32. Qed.

Lemma land_pow2_testbit d k :
  0 <= k -> negb (Z.land d (2 ^ k) =? 0) = Z.testbit d k.
Proof.
  intros Hk.
  assert (H : Z.land d (2 ^ k) = if Z.testbit d k then 2 ^ k else 0).
  { apply Z.bits_inj'; intros n Hn.
    rewrite Z.land_spec, Z.pow2_bits_eqb by exact Hk.
    destruct (Z.eqb_spec k n) as [->|Hne].
    - destruct (Z.testbit d n); [|now rewrite Z.testbit_0_l].
      now rewrite Z.pow2_bits_eqb, Z.eqb_refl by exact Hn.
    - rewrite andb_false_r. destruct (Z.testbit d k); [|now rewrite Z.testbit_0_l].
      rewrite Z.pow2_bits_eqb by exact Hk. symmetry. now apply Z.eqb_neq. }
  rewrite H. destruct (Z.testbit d k); [|reflexivity].
  assert (0 < 2 ^ k) by (apply Z.pow_pos_nonneg; lia).
  destruct (Z.eqb_spec (2 ^ k) 0); [lia | reflexivity].
Qed.

Lemma crc_bit_step_serial data r k :
  is_u32 r -> 0 <= k ->
  crc_bit_step data r (2 ^ k) = serial_bit r (Z.testbit data k).
Proof.
  intros Hr Hk.
  rewrite crc_bit_step_shift0, serial_bit_shift0, land_pow2_testbit by assumption.
  reflexivity.
Qed.

Lemma crc_bit_step_is_u32 data r bitMask : is_u32 (crc_bit_step data r bitMask).
Proof.
  unfold crc_bit_step. cbv zeta.
  destruct (_ =? 0); [apply u32_is_u32|].
  apply lxor_is_u32; [apply u32_is_u32 | apply POLY_is_u32].
Qed.

(** The inner loop of [cleverCRC] consumes the eight bits of the byte,
    most significant first; sixteen units of fuel suffice. *)
Lemma bit_loop_serial r (d : byte) :
  is_u32 r ->
  bit_loop bit_fuel (byte.unsigned d) 0x080 r = serial_byte r d.
Proof.
  intros Hr.
  change (bit_loop bit_fuel (byte.unsigned d) 0x080 r) with
    (crc_bit_step (byte.unsigned d)
      (crc_bit_step (byte.unsigned d)
        (crc_bit_step (byte.unsigned d)
          (crc_bit_step (byte.unsigned d)
            (crc_bit_step (byte.unsigned d)
              (crc_bit_step (byte.unsigned d)
                (crc_bit_step (byte.unsigned d)
                  (crc_bit_step (byte.unsigned d) r (2 ^ 7)) (2 ^ 6)) (2 ^ 5))
              (2 ^ 4)) (2 ^ 3)) (2 ^ 2)) (2 ^ 1)) (2 ^ 0)).
  unfold serial_byte, msb_first. cbn [map fold_left].
  repeat (rewrite crc_bit_step_serial;
          [| first [assumption | apply crc_bit_step_is_u32 | apply serial_bit_is_u32] | lia]).
  reflexivity.
Qed.

Lemma fold_serial_bit_push bits : forall k y,
  (k + length bits <= 32)%nat ->
  fold_left serial_bit bits (shiftN k y) =
  shiftN (k + length bits) (Z.lxor y (place_bits k bits)).
Proof.
  induction bits as [|b bits IH]; intros k y Hk; cbn [fold_left place_bits length] in *.
  - now rewrite Z.lxor_0_r, Nat.add_0_r.
  - rewrite serial_bit_shift0, shift0_push by lia.
    rewrite IH by lia. rewrite Z.lxor_assoc. f_equal. lia.
Qed.

Lemma place_bits_byte (d : byte) :
  place_bits 0 (msb_first d) = Z.shiftl (byte.unsigned d) 24.
Proof. destruct d; reflexivity. Qed.

Lemma serial_byte_shiftN r (d : byte) :
  serial_byte r d = shiftN 8 (Z.lxor r (Z.shiftl (byte.unsigned d) 24)).
Proof.
  unfold serial_byte. change r with (shiftN 0 r) at 1.
  rewrite fold_serial_bit_push by (cbn; lia).
  rewrite place_bits_byte. reflexivity.
Qed.

Lemma serial_byte_is_u32 r d : is_u32 (serial_byte r d).
Proof. rewrite serial_byte_shiftN. apply shift0_is_u32. Qed.

Lemma byte_shift_bound (d : byte) k :
  (k <= 24)%nat ->
  0 <= Z.shiftl (byte.unsigned d) (24 - Z.of_nat k) < 2 ^ (32 - Z.of_nat k).
Proof.
  intros Hk. pose proof (byte.unsigned_range d) as Hd.
  rewrite Z.shiftl_mul_pow2 by lia.
  replace (32 - Z.of_nat k) with (8 + (24 - Z.of_nat k)) by lia.
  rewrite Z.pow_add_r by lia.
  assert (0 < 2 ^ (24 - Z.of_nat k)) by (apply Z.pow_pos_nonneg; lia).
  nia.
Qed.

Lemma shiftN_byte k (d : byte) :
  (k <= 24)%nat ->
  shiftN k (Z.shiftl (byte.unsigned d) (24 - Z.of_nat k)) = Z.shiftl (byte.unsigned d) 24.
Proof.
  intros Hk. rewrite shiftN_small; [| lia | apply byte_shift_bound; lia].
  rewrite !Z.shiftl_mul_pow2 by lia. rewrite <- Z.mul_assoc, <- Z.pow_add_r by lia.
  do 2 f_equal. lia.
Qed.

Lemma fold_serial_byte_push ds : forall k y,
  (k + 8 * length ds <= 32)%nat ->
  fold_left serial_byte ds (shiftN k y) =
  shiftN (k + 8 * length ds) (Z.lxor y (place_bytes k ds)).
Proof.
  induction ds as [|d ds IH]; intros k y Hk; cbn [fold_left place_bytes length] in *.
  - now rewrite Z.lxor_0_r, Nat.mul_0_r, Nat.add_0_r.
  - rewrite serial_byte_shiftN, <- (shiftN_byte k d) by lia.
    rewrite <- shiftN_lxor, <- shiftN_add, IH by lia.
    rewrite Z.lxor_assoc. f_equal. lia.
Qed.

(** Up to four bytes: XOR them into the top of the register, then shift
    zeros in. *)
Lemma bit_serial_crc_short r ds :
  (length ds <= 4)%nat ->
  bit_serial_crc r ds = shiftN (8 * length ds) (Z.lxor r (place_bytes 0 ds)).
Proof.
  intros H. unfold bit_serial_crc. change r with (shiftN 0 r) at 1.
  rewrite fold_serial_byte_push by lia. reflexivity.
Qed.

Lemma bit_serial_crc_app r a b :
  bit_serial_crc r (a ++ b) = bit_serial_crc (bit_serial_crc r a) b.
Proof. apply fold_left_app. Qed.

Lemma bit_serial_crc_is_u32 r ds : is_u32 r -> is_u32 (bit_serial_crc r ds).
Proof.
  revert r. induction ds as [|d ds IH]; intros r Hr; [exact Hr|].
  apply IH, serial_byte_is_u32.
Qed.

Lemma bytes_at_S mem p n :
  bytes_at mem p (S n) = mem p :: bytes_at mem (p + 1) n.
Proof.
  unfold bytes_at. cbn [seq map]. rewrite Z.add_0_r. f_equal.
  rewrite <- seq_shift, map_map. apply map_ext. intros i. f_equal. lia.
Qed.

Lemma bytes_at_add mem p a b :
  bytes_at mem p (a + b) = bytes_at mem p a ++ bytes_at mem (p + Z.of_nat a) b.
Proof.
  revert p. induction a as [|a IH]; intros p.
  - cbn. now rewrite Z.add_0_r.
  - cbn [Nat.add]. rewrite !bytes_at_S, IH. cbn [app]. do 3 f_equal. lia.
Qed.

(** [cleverCRC] is the bit-serial register run over the bytes it is
    pointed at; the fuel it is given is enough. *)
Lemma cleverCRC_loop_serial fuel mem : forall r p n,
  is_u32 r -> (Z.to_nat n <= fuel)%nat ->
  cleverCRC_loop fuel mem r p n = bit_serial_crc r (bytes_at mem p (Z.to_nat n)).
Proof.
  induction fuel as [|fuel IH]; intros r p n Hr Hf.
  - replace (Z.to_nat n) with O by lia. reflexivity.
  - cbn [cleverCRC_loop]. destruct (Z.ltb_spec 0 n) as [Hn|Hn].
    + replace (Z.to_nat n) with (S (Z.to_nat (n - 1))) by lia.
      rewrite bytes_at_S. unfold load8. rewrite bit_loop_serial by exact Hr.
      rewrite IH; [reflexivity | apply serial_byte_is_u32 | lia].
    + replace (Z.to_nat n) with O by lia. reflexivity.
Qed.

Lemma cleverCRC_serial mem r p n :
  is_u32 r ->
  cleverCRC mem r p n = bit_serial_crc r (bytes_at mem p (Z.to_nat n)).
Proof. intros Hr. apply cleverCRC_loop_serial; [exact Hr | lia]. Qed.

Lemma place_bytes_4 a b c d :
  place_bytes 0 [a; b; c; d] =
  be32 (byte.unsigned a) (byte.unsigned b) (byte.unsigned c) (byte.unsigned d).
Proof.
  unfold be32. cbn [place_bytes]. cbn [Nat.add Z.of_nat Pos.of_succ_nat Pos.succ Z.sub Z.opp Z.add Z.pos_sub Z.succ_double Z.pred_double Z.double Pos.pred_double].
  rewrite Z.lxor_0_r. reflexivity.
Qed.

Ltac know_byte x :=
  let H := fresh in
  assert (H : x = x mod 2 ^ 8)
    by (symmetry; apply Z.mod_small; first [assumption | apply byte.unsigned_range]);
  rewrite H; clear H.

Ltac neg_bits :=
  repeat match goal with
         | |- context [Z.testbit ?a ?l] => rewrite (Z.testbit_neg_r a l) by lia
         end;
  repeat rewrite Z.testbit_mod_pow2 by lia;
  Z.destruct_ltbs;
  try (exfalso; lia);
  try btauto.

Ltac bitwise :=
  apply Z.bits_inj'; intros ?i ?Hi;
  repeat (progress Z.rewrite_bitwise);
  Z.destruct_ltbs;
  repeat match goal with
         | |- context [Z.testbit ?a ?l] => rewrite (Z.testbit_neg_r a l) by lia
         end;
  Z.discover_equal_testbit_indices;
  try (exfalso; lia);
  try btauto.

Lemma shl32_byte d k :
  0 <= d < 2 ^ 8 -> 0 <= k <= 24 -> shl32 d k = Z.shiftl d k.
Proof.
  intros Hd Hk. unfold shl32, u32. rewrite Z.shiftl_mul_pow2 by lia.
  apply Z.mod_small.
  assert (0 < 2 ^ k <= 2 ^ 24) by (split; [apply Z.pow_pos_nonneg | apply Z.pow_le_mono_r]; lia).
  nia.
Qed.

(** Byte [j] (counted from the least significant) of a word assembled
    from four bytes. *)
Lemma le_word_byte0 d0 d1 d2 d3 :
  0 <= d0 < 2 ^ 8 ->
  Z.land (Z.lor (Z.lor d0 (Z.shiftl d1 8)) (Z.lor (Z.shiftl d2 16) (Z.shiftl d3 24))) (Z.ones 8) = d0.
Proof. intros H0. know_byte d0. rewrite Z.land_ones by lia. Z.bitblast; neg_bits. Qed.

Lemma le_word_byte1 d0 d1 d2 d3 :
  0 <= d0 < 2 ^ 8 -> 0 <= d1 < 2 ^ 8 ->
  Z.land (Z.shiftr (Z.lor (Z.lor d0 (Z.shiftl d1 8)) (Z.lor (Z.shiftl d2 16) (Z.shiftl d3 24))) 8) (Z.ones 8) = d1.
Proof. intros H0 H1. know_byte d0. know_byte d1. rewrite Z.land_ones by lia. Z.bitblast; neg_bits. Qed.

Lemma le_word_byte2 d0 d1 d2 d3 :
  0 <= d0 < 2 ^ 8 -> 0 <= d1 < 2 ^ 8 -> 0 <= d2 < 2 ^ 8 ->
  Z.land (Z.shiftr (Z.lor (Z.lor d0 (Z.shiftl d1 8)) (Z.lor (Z.shiftl d2 16) (Z.shiftl d3 24))) 16) (Z.ones 8) = d2.
Proof. intros H0 H1 H2. know_byte d0. know_byte d1. know_byte d2. rewrite Z.land_ones by lia. Z.bitblast; neg_bits. Qed.

Lemma le_word_byte3 d0 d1 d2 d3 :
  0 <= d0 < 2 ^ 8 -> 0 <= d1 < 2 ^ 8 -> 0 <= d2 < 2 ^ 8 -> 0 <= d3 < 2 ^ 8 ->
  Z.land (Z.shiftr (Z.lor (Z.lor d0 (Z.shiftl d1 8)) (Z.lor (Z.shiftl d2 16) (Z.shiftl d3 24))) 24) (Z.ones 8) = d3.
Proof. intros H0 H1 H2 H3. know_byte d0. know_byte d1. know_byte d2. know_byte d3. rewrite Z.land_ones by lia. Z.bitblast; neg_bits. Qed.

Lemma bswap32_le d0 d1 d2 d3 :
  0 <= d0 < 2 ^ 8 -> 0 <= d1 < 2 ^ 8 -> 0 <= d2 < 2 ^ 8 -> 0 <= d3 < 2 ^ 8 ->
  bswap32 (Z.lor (Z.lor d0 (shl32 d1 8)) (Z.lor (shl32 d2 16) (shl32 d3 24)))
  = Z.lor (Z.lor (shl32 d0 24) (shl32 d1 16)) (Z.lor (shl32 d2 8) d3).
Proof.
  intros H0 H1 H2 H3. unfold bswap32.
  rewrite (shl32_byte d1 8), (shl32_byte d2 16), (shl32_byte d3 24) by lia.
  change 0xff with (Z.ones 8).
  rewrite le_word_byte0, le_word_byte1, le_word_byte2, le_word_byte3 by assumption.
  reflexivity.
Qed.

Lemma be32_be d0 d1 d2 d3 :
  0 <= d0 < 2 ^ 8 -> 0 <= d1 < 2 ^ 8 -> 0 <= d2 < 2 ^ 8 -> 0 <= d3 < 2 ^ 8 ->
  Z.lor (Z.lor (shl32 d0 24) (shl32 d1 16)) (Z.lor (shl32 d2 8) d3)
  = be32 d0 d1 d2 d3.
Proof.
  intros H0 H1 H2 H3. unfold be32, shl32, u32.
  know_byte d0. know_byte d1. know_byte d2. know_byte d3.
  Z.bitblast; neg_bits.
Qed.

Lemma bytes_at_4 mem p :
  bytes_at mem p 4 = [mem p; mem (p + 1); mem (p + 2); mem (p + 3)].
Proof.
  unfold bytes_at. cbn [seq map]. now rewrite Z.add_0_r.
Qed.

Lemma REV_load32 order mem p :
  REV order (load32 order mem p) = place_bytes 0 (bytes_at mem p 4).
Proof.
  rewrite bytes_at_4, place_bytes_4. unfold load8.
  destruct order; cbn [REV load32]; unfold load8.
  - rewrite bswap32_le by apply byte.unsigned_range. apply be32_be; apply byte.unsigned_range.
  - apply be32_be; apply byte.unsigned_range.
Qed.

Lemma be32_le_form a b c d :
  0 <= a < 2 ^ 8 -> 0 <= b < 2 ^ 8 -> 0 <= c < 2 ^ 8 -> 0 <= d < 2 ^ 8 ->
  be32 a b c d = Z.lor (Z.lor d (Z.shiftl c 8)) (Z.lor (Z.shiftl b 16) (Z.shiftl a 24)).
Proof.
  intros Ha Hb Hc Hd. unfold be32.
  know_byte a. know_byte b. know_byte c. know_byte d.
  Z.bitblast; neg_bits.
Qed.

Lemma land_ff_range w : 0 <= Z.land w 0xff < 2 ^ 8.
Proof.
  change 0xff with (Z.ones 8). rewrite Z.land_ones by lia.
  apply Z.mod_pos_bound. reflexivity.
Qed.

Ltac byte_range := first [assumption | apply land_ff_range | apply byte.unsigned_range].

Lemma bswap32_be32 w :
  bswap32 w = be32 (Z.land w 0xff) (Z.land (Z.shiftr w 8) 0xff)
                   (Z.land (Z.shiftr w 16) 0xff) (Z.land (Z.shiftr w 24) 0xff).
Proof.
  unfold bswap32. apply be32_be; byte_range.
Qed.

(** Whatever the byte order, the bytes of [__REV(word)] in memory are
    the bytes of [word] from the most significant down. *)
Lemma word_object_byte order w j :
  (j = 0 \/ j = 1 \/ j = 2 \/ j = 3) ->
  load8 (word_object order (REV order w)) j = Z.land (Z.shiftr w (8 * (3 - j))) 0xff.
Proof.
  intros Hj. unfold load8, word_object.
  destruct order; cbn [REV]; rewrite byte.unsigned_of_Z; unfold byte.wrap;
    change 0xff with (Z.ones 8); rewrite <- Z.land_ones by lia; [|reflexivity].
  rewrite bswap32_be32, be32_le_form by byte_range.
  change 0xff with (Z.ones 8).
  destruct Hj as [Hj|[Hj|[Hj|Hj]]]; subst j; cbn [Z.mul Z.sub Z.opp Z.add Z.pos_sub Pos.mul Pos.add Pos.pred_double Z.double Z.succ_double Z.pred_double].
  - rewrite Z.shiftr_0_r, le_word_byte0; [reflexivity | byte_range].
  - rewrite le_word_byte1; [reflexivity | byte_range ..].
  - rewrite le_word_byte2; [reflexivity | byte_range ..].
  - rewrite le_word_byte3; [| byte_range ..]. now rewrite Z.shiftr_0_r.
Qed.

Lemma be32_bytes w :
  is_u32 w ->
  be32 (Z.land (Z.shiftr w 24) 0xff) (Z.land (Z.shiftr w 16) 0xff)
       (Z.land (Z.shiftr w 8) 0xff) (Z.land (Z.shiftr w 0) 0xff) = w.
Proof.
  intros H. unfold be32. change 0xff with (Z.ones 8). rewrite !Z.land_ones by lia.
  rewrite <- (u32_id w H). unfold u32. Z.bitblast; neg_bits.
Qed.

Lemma word_object_place order w :
  is_u32 w ->
  place_bytes 0 (bytes_at (word_object order (REV order w)) 0 4) = w.
Proof.
  intros H. rewrite bytes_at_4, place_bytes_4.
  change (byte.unsigned (word_object order (REV order w) ?a))
    with (load8 (word_object order (REV order w)) a).
  rewrite !word_object_byte by lia. cbn [Z.add].
  apply be32_bytes, H.
Qed.

Lemma lxor_small a b m :
  (m = 8 \/ m = 16 \/ m = 24) ->
  0 <= a < 2 ^ m -> 0 <= b < 2 ^ m -> 0 <= Z.lxor a b < 2 ^ m.
Proof.
  intros Hm Ha Hb.
  assert (E : Z.lxor a b = Z.lxor a b mod 2 ^ m).
  { rewrite <- (Z.mod_small a (2 ^ m)), <- (Z.mod_small b (2 ^ m)) by assumption.
    destruct Hm as [Hm|[Hm|Hm]]; subst m; Z.bitblast. }
  rewrite E. apply Z.mod_pos_bound. destruct Hm as [Hm|[Hm|Hm]]; subst m; reflexivity.
Qed.

Lemma shiftr_small c m :
  (m = 8 \/ m = 16 \/ m = 24) -> is_u32 c -> 0 <= Z.shiftr c (32 - m) < 2 ^ m.
Proof.
  intros Hm Hc. unfold is_u32 in Hc. rewrite Z.shiftr_div_pow2 by lia.
  destruct Hm as [Hm|[Hm|Hm]]; subst m; cbn [Z.sub Z.opp Z.add Z.pos_sub Pos.pred_double Z.double Z.succ_double Z.pred_double];
    split; [apply Z.div_pos; lia | apply Z.div_lt_upper_bound; lia
           | apply Z.div_pos; lia | apply Z.div_lt_upper_bound; lia
           | apply Z.div_pos; lia | apply Z.div_lt_upper_bound; lia].
Qed.

Lemma split_register c data m :
  (m = 8 \/ m = 16 \/ m = 24) -> is_u32 c -> 0 <= data < 2 ^ m ->
  Z.lxor (Z.lxor data (Z.shiftr c (32 - m)) * 2 ^ (32 - m)) (c mod 2 ^ (32 - m))
  = Z.lxor c (Z.shiftl data (32 - m)).
Proof.
  intros Hm Hc Hd. rewrite <- Z.shiftl_mul_pow2 by lia.
  rewrite <- (u32_id c Hc), <- (Z.mod_small data (2 ^ m)) by assumption. unfold u32.
  destruct Hm as [Hm|[Hm|Hm]]; subst m;
    cbn [Z.sub Z.opp Z.add Z.pos_sub Pos.pred_double Z.double Z.succ_double Z.pred_double];
    bitwise.
Qed.

(** The algebra behind the sub-word correction: for a register value [c]
    and [m] fresh data bits, writing the data XOR the top [m] bits of [c]
    into a cleared register, and keeping [c << m] aside, adds up to
    shifting the [m] data bits into [c]. *)
Lemma fold_partial c data m :
  (m = 8 \/ m = 16 \/ m = 24)%nat -> is_u32 c -> 0 <= data < 2 ^ Z.of_nat m ->
  Z.lxor (shiftN 32 (Z.lxor data (Z.shiftr c (32 - Z.of_nat m)))) (shl32 c (Z.of_nat m))
  = shiftN m (Z.lxor c (Z.shiftl data (32 - Z.of_nat m))).
Proof.
  intros Hm Hc Hd.
  assert (Hm' : Z.of_nat m = 8 \/ Z.of_nat m = 16 \/ Z.of_nat m = 24) by lia.
  pose proof (lxor_small _ _ _ Hm' Hd (shiftr_small c _ Hm' Hc)) as HX.
  replace 32%nat with (m + (32 - m))%nat at 1 by lia.
  rewrite shiftN_add.
  rewrite (shiftN_small (32 - m)); [| lia |].
  2:{ replace (32 - Z.of_nat (32 - m)) with (Z.of_nat m) by lia. exact HX. }
  replace (Z.of_nat (32 - m)) with (32 - Z.of_nat m) by lia.
  assert (E : shl32 c (Z.of_nat m) = shiftN m (c mod 2 ^ (32 - Z.of_nat m))).
  { rewrite shiftN_small; [| lia | apply Z.mod_pos_bound, Z.pow_pos_nonneg; lia].
    unfold shl32, u32. rewrite Z.shiftl_mul_pow2 by lia.
    replace (2 ^ 32) with (2 ^ (32 - Z.of_nat m) * 2 ^ Z.of_nat m)
      by (rewrite <- Z.pow_add_r by lia; f_equal; lia).
    rewrite Z.mul_mod_distr_r; [reflexivity | |]; apply Z.pow_nonzero; lia. }
  rewrite E, <- shiftN_lxor. f_equal.
  apply split_register; assumption.
Qed.

(* ================================================================== *)
(** * The engine *)

Section Facts.

Variable order : byte_order.

Lemma process_word_spec w s :
  is_u32 (periphCRC s) -> is_u32 w ->
  CRC_PROCESS_WORD order w s =
  (tt, mkState (shiftN 32 (Z.lxor (periphCRC s) w)) (extraCRC s) (bus s ++ [EvWrite w])).
Proof.
  intros Hp Hw. unfold CRC_PROCESS_WORD. cbv zeta.
  rewrite cleverCRC_serial by exact Hp.
  change (Z.to_nat 4) with 4%nat.
  rewrite bit_serial_crc_short by (rewrite bytes_at_4; cbn; lia).
  rewrite word_object_place by exact Hw.
  rewrite bytes_at_4. reflexivity.
Qed.

Lemma data_word_1 a : data_word [a] = byte.unsigned a.
Proof. unfold data_word. cbn [fold_left]. now rewrite Z.shiftl_0_l, Z.lor_0_l. Qed.

Lemma data_word_range ds :
  (length ds = 1 \/ length ds = 2 \/ length ds = 3)%nat ->
  0 <= data_word ds < 2 ^ (8 * Z.of_nat (length ds)).
Proof.
  intros H.
  assert (E : data_word ds = data_word ds mod 2 ^ (8 * Z.of_nat (length ds))).
  { destruct ds as [|a [|b [|c [|d ds]]]]; cbn [length] in *; try lia;
      unfold data_word; cbn [fold_left];
      cbn [Z.of_nat Pos.of_succ_nat Pos.succ Z.mul Pos.mul Pos.add];
      [know_byte (byte.unsigned a)
      | know_byte (byte.unsigned a); know_byte (byte.unsigned b)
      | know_byte (byte.unsigned a); know_byte (byte.unsigned b); know_byte (byte.unsigned c)];
      bitwise. }
  rewrite E. apply Z.mod_pos_bound, Z.pow_pos_nonneg; lia.
Qed.

Lemma place_data_word ds :
  (length ds = 1 \/ length ds = 2 \/ length ds = 3)%nat ->
  place_bytes 0 ds = Z.shiftl (data_word ds) (32 - 8 * Z.of_nat (length ds)).
Proof.
  intros H.
  destruct ds as [|a [|b [|c [|d ds]]]]; cbn [length] in *; try lia;
    unfold data_word; cbn [fold_left place_bytes];
    cbn [Nat.add Z.of_nat Pos.of_succ_nat Pos.succ Z.mul Pos.mul Pos.add Z.sub Z.opp Z.add Z.pos_sub Pos.pred_double Z.double Z.succ_double Z.pred_double];
    [know_byte (byte.unsigned a)
    | know_byte (byte.unsigned a); know_byte (byte.unsigned b)
    | know_byte (byte.unsigned a); know_byte (byte.unsigned b); know_byte (byte.unsigned c)];
    bitwise.
Qed.

Lemma land_ff_byte d : 0 <= d < 2 ^ 8 -> Z.land d 0xff = d.
Proof.
  intros H. change 0xff with (Z.ones 8). rewrite Z.land_ones by lia.
  now apply Z.mod_small.
Qed.

Lemma shiftr_mask c m :
  (m = 8 \/ m = 16 \/ m = 24) -> is_u32 c ->
  Z.land (Z.shiftr c (32 - m)) (Z.ones m) = Z.shiftr c (32 - m).
Proof.
  intros Hm Hc. rewrite Z.land_ones by lia.
  apply Z.mod_small, shiftr_small; assumption.
Qed.

Lemma data_word_2 a b :
  data_word [a; b] =
  Z.lxor (Z.lxor 0 (Z.land (shl32 (byte.unsigned a) 8) 0x0000ff00))
         (Z.land (shl32 (byte.unsigned b) 0) 0x000000ff).
Proof.
  unfold data_word. cbn [fold_left].
  rewrite Z.shiftl_0_l, Z.lor_0_l, Z.lxor_0_l.
  rewrite !shl32_byte by (try lia; byte_range).
  rewrite Z.shiftl_0_r, land_ff_byte by byte_range.
  change 0x0000ff00 with (Z.shiftl (Z.ones 8) 8).
  know_byte (byte.unsigned a). know_byte (byte.unsigned b).
  bitwise.
Qed.

Lemma data_word_3 a b c :
  data_word [a; b; c] =
  Z.lxor (Z.land (shl32 (byte.unsigned a) 16) 0x00ff0000)
         (Z.lxor (Z.land (shl32 (byte.unsigned b) 8) 0x0000ff00)
                 (Z.land (shl32 (byte.unsigned c) 0) 0x000000ff)).
Proof.
  unfold data_word. cbn [fold_left].
  rewrite Z.shiftl_0_l, Z.lor_0_l.
  rewrite !shl32_byte by (try lia; byte_range).
  rewrite Z.shiftl_0_r, land_ff_byte by byte_range.
  change 0x0000ff00 with (Z.shiftl (Z.ones 8) 8).
  change 0x00ff0000 with (Z.shiftl (Z.ones 8) 16).
  know_byte (byte.unsigned a). know_byte (byte.unsigned b). know_byte (byte.unsigned c).
  bitwise.
Qed.

Lemma bytes_at_1 mem p : bytes_at mem p 1 = [mem p].
Proof. now rewrite bytes_at_S. Qed.

Lemma bytes_at_2 mem p : bytes_at mem p 2 = [mem p; mem (p + 1)].
Proof. now rewrite bytes_at_S, bytes_at_1. Qed.

Lemma bytes_at_3 mem p : bytes_at mem p 3 = [mem p; mem (p + 1); mem (p + 2)].
Proof.
  rewrite bytes_at_S, bytes_at_2. now replace (p + 1 + 1) with (p + 2) by lia.
Qed.

(** What [crc32lt4bytes] has computed when it reaches its final
    [CRC_PROCESS_WORD]: the locals [dataBytes] and [val], and the new
    [extraCRC]. *)
Lemma lt4_prepare_spec mem p n s :
  wf s -> (n = 1 \/ n = 2 \/ n = 3) ->
  lt4_prepare mem p n s =
  ((if n =? 3 then 0 else data_word (bytes_at mem p (Z.to_nat n)),
    Z.lxor (periphCRC s)
           (Z.lxor (data_word (bytes_at mem p (Z.to_nat n)))
                   (Z.shiftr (true_crc s) (32 - 8 * n)))),
   mkState (periphCRC s) (shl32 (true_crc s) (8 * n)) (bus s)).
Proof.
  intros [Hp He] Hn.
  assert (Hc : is_u32 (true_crc s)) by (apply lxor_is_u32; assumption).
  unfold lt4_prepare, lt4_switch, bind, CRC_READ, get_extraCRC, set_extraCRC, ret.
  fold (true_crc s). cbn [periphCRC extraCRC bus].
  destruct Hn as [Hn|[Hn|Hn]]; subst n;
    cbn [Z.eqb Pos.eqb Z.mul Pos.mul Z.sub Z.opp Z.add Z.pos_sub Pos.pred_double Z.double Z.succ_double Z.pred_double];
    unfold load8.
  - change (Z.to_nat 1) with 1%nat. rewrite bytes_at_1, data_word_1.
    rewrite Z.lxor_0_l, land_ff_byte by byte_range.
    change 0x000000ff with (Z.ones 8).
    pose proof (shiftr_mask (true_crc s) 8 ltac:(lia) Hc) as E.
    change (32 - 8) with 24 in E. rewrite E.
    now rewrite Z.lxor_assoc.
  - change (Z.to_nat 2) with 2%nat. rewrite bytes_at_2, <- data_word_2.
    change 0x0000ffff with (Z.ones 16).
    pose proof (shiftr_mask (true_crc s) 16 ltac:(lia) Hc) as E.
    change (32 - 16) with 16 in E. rewrite E.
    now rewrite Z.lxor_assoc.
  - change (Z.to_nat 3) with 3%nat. rewrite bytes_at_3, data_word_3.
    change 0x00ffffff with (Z.ones 24).
    pose proof (shiftr_mask (true_crc s) 24 ltac:(lia) Hc) as E.
    change (32 - 24) with 8 in E. rewrite E.
    rewrite Z.lxor_0_r, !Z.lxor_assoc. reflexivity.
Qed.

Lemma data_word_is_u32 ds :
  (length ds = 1 \/ length ds = 2 \/ length ds = 3)%nat -> is_u32 (data_word ds).
Proof.
  intros H. pose proof (data_word_range ds H) as [H0 H1]. split; [exact H0|].
  eapply Z.lt_le_trans; [exact H1|]. apply Z.pow_le_mono_r; lia.
Qed.

Lemma shiftr_is_u32 c k : is_u32 c -> 0 <= k -> is_u32 (Z.shiftr c k).
Proof.
  intros [H0 H1] Hk. rewrite Z.shiftr_div_pow2 by exact Hk.
  assert (0 < 2 ^ k) by (apply Z.pow_pos_nonneg; lia).
  split; [apply Z.div_pos; lia|].
  apply Z.div_lt_upper_bound; nia.
Qed.

Lemma length_bytes_at mem p n : length (bytes_at mem p n) = n.
Proof. unfold bytes_at. now rewrite length_map, length_seq. Qed.

Lemma crc32lt4bytes_spec mem p n s :
  wf s -> (n = 1 \/ n = 2 \/ n = 3) ->
  crc32lt4bytes order mem p n s =
  (tt, mkState (shiftN 32 (Z.lxor (data_word (bytes_at mem p (Z.to_nat n)))
                                  (Z.shiftr (true_crc s) (32 - 8 * n))))
               (shl32 (true_crc s) (8 * n))
               (bus s ++ [EvWrite (lt4_val mem p n s)])).
Proof.
  intros Hs Hn.
  assert (Hc : is_u32 (true_crc s)) by (destruct Hs; apply lxor_is_u32; assumption).
  assert (Hl : (length (bytes_at mem p (Z.to_nat n)) = 1 \/
                length (bytes_at mem p (Z.to_nat n)) = 2 \/
                length (bytes_at mem p (Z.to_nat n)) = 3)%nat)
    by (rewrite length_bytes_at; lia).
  unfold crc32lt4bytes.
  replace (n =? 0) with false by (symmetry; apply Z.eqb_neq; lia).
  unfold bind at 1. rewrite lt4_prepare_spec by assumption.
  rewrite process_word_spec; cbn [periphCRC extraCRC bus].
  - unfold lt4_val.
    rewrite <- Z.lxor_assoc, Z.lxor_nilpotent, Z.lxor_0_l. reflexivity.
  - apply Hs.
  - apply lxor_is_u32; [apply Hs|].
    apply lxor_is_u32; [apply data_word_is_u32, Hl | apply shiftr_is_u32; [exact Hc | lia]].
Qed.

(** The sub-word corrector keeps [periphCRC ^ extraCRC] equal to the
    running CRC. *)
Lemma crc32lt4bytes_true_crc mem p n s :
  wf s -> (n = 1 \/ n = 2 \/ n = 3) ->
  wf (exec (crc32lt4bytes order mem p n) s) /\
  true_crc (exec (crc32lt4bytes order mem p n) s) =
  bit_serial_crc (true_crc s) (bytes_at mem p (Z.to_nat n)).
Proof.
  intros Hs Hn.
  assert (Hc : is_u32 (true_crc s)) by (destruct Hs; apply lxor_is_u32; assumption).
  unfold exec. rewrite crc32lt4bytes_spec by assumption. cbn [snd].
  split.
  - split; cbn [periphCRC extraCRC]; [apply shift0_is_u32 | apply u32_is_u32].
  - unfold true_crc at 1. cbn [periphCRC extraCRC].
    set (bs := bytes_at mem p (Z.to_nat n)).
    assert (Hl : length bs = Z.to_nat n) by apply length_bytes_at.
    rewrite bit_serial_crc_short by lia.
    rewrite place_data_word by lia.
    replace (8 * n) with (Z.of_nat (8 * length bs)) by lia.
    rewrite Hl at 1 2 3.
    rewrite fold_partial; [ | lia | exact Hc | ].
    + do 3 f_equal. lia.
    + pose proof (data_word_range bs ltac:(lia)) as Hr.
      replace (Z.of_nat (8 * Z.to_nat n)) with (8 * Z.of_nat (length bs)) by lia.
      exact Hr.
Qed.

Lemma place_bytes_4_is_u32 mem p : is_u32 (place_bytes 0 (bytes_at mem p 4)).
Proof.
  rewrite <- (REV_load32 BigEndian). cbn [REV load32].
  unfold load8. rewrite !shl32_byte by (try lia; byte_range).
  apply is_u32_fix.
  know_byte (byte.unsigned (mem p)). know_byte (byte.unsigned (mem (p + 1))).
  know_byte (byte.unsigned (mem (p + 2))). know_byte (byte.unsigned (mem (p + 3))).
  unfold u32. Z.bitblast; neg_bits.
Qed.

Lemma plain_word_spec mem p s :
  is_u32 (periphCRC s) ->
  CRC_PROCESS_WORD order (REV order (load32 order mem p)) s =
  (tt, mkState (bit_serial_crc (periphCRC s) (bytes_at mem p 4)) (extraCRC s)
               (bus s ++ [EvWrite (place_bytes 0 (bytes_at mem p 4))])).
Proof.
  intros Hp. rewrite REV_load32.
  rewrite process_word_spec by first [assumption | apply place_bytes_4_is_u32].
  rewrite bit_serial_crc_short by (rewrite length_bytes_at; lia).
  rewrite length_bytes_at. reflexivity.
Qed.

Lemma word_loop_spec mem q : forall fuel r p s,
  (q <= fuel)%nat -> 0 <= r < 4 -> is_u32 (periphCRC s) ->
  word_loop order fuel mem p (4 * Z.of_nat q + r) s =
  ((p + 4 * Z.of_nat q, r),
   mkState (bit_serial_crc (periphCRC s) (bytes_at mem p (4 * q)))
           (extraCRC s)
           (bus s ++ map EvWrite (words_at mem p q))).
Proof.
  induction q as [|q IH]; intros fuel r p s Hf Hr Hp.
  - cbn [Z.of_nat Z.mul Z.add words_at map Nat.mul bytes_at seq].
    rewrite Z.add_0_r, app_nil_r. cbn [bit_serial_crc fold_left].
    destruct fuel as [|fuel]; cbn [word_loop].
    + unfold ret. now destruct s.
    + replace (r >=? 4) with false by (symmetry; rewrite Z.geb_leb; apply Z.leb_gt; lia).
      unfold ret. now destruct s.
  - destruct fuel as [|fuel]; [lia|]. cbn [word_loop].
    replace (4 * Z.of_nat (S q) + r >=? 4) with true
      by (symmetry; rewrite Z.geb_leb; apply Z.leb_le; lia).
    unfold bind. rewrite plain_word_spec by exact Hp.
    replace (4 * Z.of_nat (S q) + r - 4) with (4 * Z.of_nat q + r) by lia.
    rewrite IH; cbn [periphCRC extraCRC bus]; [| lia | lia | apply bit_serial_crc_is_u32, Hp].
    f_equal; [f_equal; lia|].
    replace (4 * S q)%nat with (4 + 4 * q)%nat by lia.
    rewrite bytes_at_add, bit_serial_crc_app.
    cbn [words_at map]. rewrite <- app_assoc. reflexivity.
Qed.

Lemma first_word_spec mem p s :
  wf s ->
  first_word order mem p s =
  (tt, mkState (bit_serial_crc (true_crc s) (bytes_at mem p 4)) 0
               (bus s ++ [EvWrite (Z.lxor (place_bytes 0 (bytes_at mem p 4)) (extraCRC s))])).
Proof.
  intros [Hp He]. unfold first_word, bind, get_extraCRC, set_extraCRC.
  rewrite REV_load32.
  rewrite process_word_spec
    by first [assumption | apply lxor_is_u32; [apply place_bytes_4_is_u32 | exact He]].
  cbn [periphCRC extraCRC bus].
  rewrite bit_serial_crc_short by (rewrite length_bytes_at; lia).
  rewrite length_bytes_at. unfold true_crc.
  rewrite (Z.lxor_comm (place_bytes 0 _)), Z.lxor_assoc. reflexivity.
Qed.

(** The bulk phase when at least one word is there: [q + 1] words and a
    remainder [r]. *)
Lemma bulk_phase_words mem p q r s :
  wf s -> 0 <= r < 4 ->
  bulk_phase order mem p (4 * Z.of_nat (S q) + r) s =
  ((p + 4 * Z.of_nat (S q), r),
   mkState (bit_serial_crc (true_crc s) (bytes_at mem p (4 * S q))) 0
           (bus s ++ EvWrite (Z.lxor (place_bytes 0 (bytes_at mem p 4)) (extraCRC s))
                  :: map EvWrite (words_at mem (p + 4) q))).
Proof.
  intros Hs Hr. unfold bulk_phase.
  replace (4 * Z.of_nat (S q) + r >=? 4) with true
    by (symmetry; rewrite Z.geb_leb; apply Z.leb_le; lia).
  unfold bind at 1. rewrite first_word_spec by exact Hs.
  replace (4 * Z.of_nat (S q) + r - 4) with (4 * Z.of_nat q + r) by lia.
  rewrite word_loop_spec; cbn [periphCRC extraCRC bus].
  - f_equal; [f_equal; lia|].
    replace (4 * S q)%nat with (4 + 4 * q)%nat by lia.
    rewrite bytes_at_add, bit_serial_crc_app, <- app_assoc. reflexivity.
  - lia.
  - exact Hr.
  - apply bit_serial_crc_is_u32. destruct Hs. now apply lxor_is_u32.
Qed.

Lemma bulk_phase_none mem p r s :
  r < 4 -> bulk_phase order mem p r s = ((p, r), s).
Proof.
  intros Hr. unfold bulk_phase.
  replace (r >=? 4) with false by (symmetry; rewrite Z.geb_leb; apply Z.leb_gt; lia).
  reflexivity.
Qed.

Lemma true_crc_is_u32 s : wf s -> is_u32 (true_crc s).
Proof. intros [Hp He]. now apply lxor_is_u32. Qed.

Lemma lt4_upto3 mem p k s :
  wf s -> 0 <= k < 4 ->
  wf (exec (crc32lt4bytes order mem p k) s) /\
  true_crc (exec (crc32lt4bytes order mem p k) s) =
  bit_serial_crc (true_crc s) (bytes_at mem p (Z.to_nat k)).
Proof.
  intros Hs Hk. destruct (Z.eq_dec k 0) as [->|Hk0].
  - unfold crc32lt4bytes, exec. cbn. now split.
  - apply crc32lt4bytes_true_crc; [exact Hs | lia].
Qed.

Lemma head_phase_spec mem p n s :
  wf s -> 0 <= n ->
  exists k s1,
    head_phase order mem p n s = ((p + k, n - k), s1) /\
    0 <= k <= n /\ k < 4 /\ (p mod 4 = 0 -> k = 0 /\ s1 = s) /\
    wf s1 /\
    true_crc s1 = bit_serial_crc (true_crc s) (bytes_at mem p (Z.to_nat k)).
Proof.
  intros Hs Hn. unfold head_phase. cbv zeta.
  destruct (Z.eqb_spec 0 (p mod 4)) as [E|E]; cbn [negb].
  - exists 0, s. unfold ret. rewrite Z.add_0_r, Z.sub_0_r.
    split; [reflexivity|]. split; [lia|]. split; [lia|]. split; [now split|].
    split; [exact Hs | reflexivity].
  - pose proof (Z.mod_pos_bound p 4 ltac:(lia)) as Hm.
    set (k := if 4 - p mod 4 >? n then n else 4 - p mod 4).
    assert (Hk : 0 <= k <= n /\ k < 4).
    { unfold k. destruct (Z.gtb_spec (4 - p mod 4) n); lia. }
    exists k, (exec (crc32lt4bytes order mem p k) s).
    destruct (lt4_upto3 mem p k s Hs ltac:(lia)) as [Hw Ht].
    unfold bind, ret, exec in *.
    destruct (crc32lt4bytes order mem p k s) as [[] s1]. cbn [snd] in *.
    split; [reflexivity|]. split; [lia|]. split; [lia|]. split; [intros; lia|].
    split; [exact Hw | exact Ht].
Qed.

Lemma bulk_phase_spec mem p n s :
  wf s -> 0 <= n ->
  exists q r s2,
    bulk_phase order mem p n s = ((p + 4 * Z.of_nat q, r), s2) /\
    0 <= r < 4 /\ n = 4 * Z.of_nat q + r /\
    wf s2 /\
    true_crc s2 = bit_serial_crc (true_crc s) (bytes_at mem p (4 * q)).
Proof.
  intros Hs Hn.
  assert (Hd : n = 4 * Z.of_nat (Z.to_nat (n / 4)) + n mod 4).
  { rewrite Z2Nat.id by (apply Z.div_pos; lia). apply Z.div_mod. lia. }
  pose proof (Z.mod_pos_bound n 4 ltac:(lia)) as Hr.
  destruct (Z.to_nat (n / 4)) as [|q] eqn:Eq.
  - exists O, (n mod 4), s.
    rewrite bulk_phase_none by lia.
    cbn [Z.of_nat Z.mul Nat.mul bytes_at seq map bit_serial_crc fold_left].
    rewrite Z.add_0_r.
    split; [do 2 f_equal; lia|]. split; [lia|]. split; [lia|]. split; [exact Hs | reflexivity].
  - exists (S q), (n mod 4). eexists.
    rewrite Hd at 1. rewrite bulk_phase_words by assumption.
    split; [reflexivity|]. split; [lia|]. split; [lia|]. split.
    + split; cbn [periphCRC extraCRC]; [|unfold is_u32; lia].
      apply bit_serial_crc_is_u32, true_crc_is_u32, Hs.
    + unfold true_crc at 1. cbn [periphCRC extraCRC]. apply Z.lxor_0_r.
Qed.

(** One call of [crc32process] advances the running CRC
    [periphCRC ^ extraCRC] over exactly the [numBytes] bytes at [pData]. *)
Lemma crc32process_true_crc mem p n s :
  wf s -> 0 <= n ->
  wf (exec (crc32process order mem p n) s) /\
  true_crc (exec (crc32process order mem p n) s) =
  bit_serial_crc (true_crc s) (bytes_at mem p (Z.to_nat n)).
Proof.
  intros Hs Hn.
  destruct (head_phase_spec mem p n s Hs Hn) as (k & s1 & Eh & Hk & Hk4 & _ & Hw1 & Ht1).
  destruct (bulk_phase_spec mem (p + k) (n - k) s1 Hw1 ltac:(lia))
    as (q & r & s2 & Eb & Hr & Hq & Hw2 & Ht2).
  destruct (lt4_upto3 mem (p + k + 4 * Z.of_nat q) r s2 Hw2 Hr) as [Hw3 Ht3].
  unfold crc32process, exec, bind. rewrite Eh, Eb.
  assert (Et : tail_phase order mem (p + k + 4 * Z.of_nat q) r s2 =
               (tt, exec (crc32lt4bytes order mem (p + k + 4 * Z.of_nat q) r) s2)).
  { unfold tail_phase, exec. destruct (Z.eqb_spec 0 r) as [<-|Hr0]; cbn [negb].
    - reflexivity.
    - now destruct (crc32lt4bytes order mem (p + k + 4 * Z.of_nat q) r s2) as [[] ?]. }
  rewrite Et. cbn [snd]. split; [exact Hw3|].
  rewrite Ht3, Ht2, Ht1, <- !bit_serial_crc_app. f_equal.
  replace (Z.to_nat n) with (Z.to_nat k + (4 * q + Z.to_nat r))%nat by lia.
  rewrite !bytes_at_add. do 2 f_equal.
  - f_equal. lia.
  - f_equal. lia.
Qed.

Lemma exec_bind {A B} (m : M A) (k : A -> M B) s :
  exec (bind m k) s = exec (k (eval m s)) (exec m s).
Proof. unfold exec, eval, bind. now destruct (m s). Qed.

Lemma eval_bind {A B} (m : M A) (k : A -> M B) s :
  eval (bind m k) s = eval (k (eval m s)) (exec m s).
Proof. unfold exec, eval, bind. now destruct (m s). Qed.

Lemma crc32start_spec initialValue s :
  crc32start initialValue s =
  (tt, mkState 0xffffffff (Z.lxor 0xffffffff initialValue) (bus s ++ [EvReset])).
Proof. reflexivity. Qed.

Lemma crc32start_true_crc initialValue s :
  true_crc (exec (crc32start initialValue) s) = initialValue.
Proof.
  unfold exec. rewrite crc32start_spec. unfold true_crc. cbn [snd periphCRC extraCRC].
  now rewrite <- Z.lxor_assoc, Z.lxor_nilpotent, Z.lxor_0_l.
Qed.

Lemma crc32start_wf initialValue s :
  is_u32 initialValue -> wf (exec (crc32start initialValue) s).
Proof.
  intros H. unfold exec. rewrite crc32start_spec. split; cbn [snd periphCRC extraCRC].
  - unfold is_u32. lia.
  - apply lxor_is_u32; [unfold is_u32; lia | exact H].
Qed.

Lemma bytes_at_ext mem1 mem2 p n :
  (forall i, 0 <= i < Z.of_nat n -> mem1 (p + i) = mem2 (p + i)) ->
  bytes_at mem1 p n = bytes_at mem2 p n.
Proof.
  intros H. unfold bytes_at. apply map_ext_in. intros i Hi.
  apply in_seq in Hi. apply H. lia.
Qed.

Lemma bytes_at_mem_at_firstn D : forall p n,
  (n <= length D)%nat -> bytes_at (mem_at p D) p n = firstn n D.
Proof.
  induction D as [|d D IH]; intros p n Hn.
  - cbn [length] in Hn. replace n with O by lia. reflexivity.
  - destruct n as [|n]; [reflexivity|]. cbn [length] in Hn.
    rewrite bytes_at_S. cbn [firstn]. f_equal.
    + unfold mem_at. now rewrite Z.sub_diag.
    + rewrite <- (IH (p + 1) n) by lia. apply bytes_at_ext. intros i Hi.
      unfold mem_at.
      replace (Z.to_nat (p + 1 + i - p)) with (S (Z.to_nat (p + 1 + i - (p + 1)))) by lia.
      reflexivity.
Qed.

Lemma bytes_at_mem_at p D : bytes_at (mem_at p D) p (length D) = D.
Proof. rewrite bytes_at_mem_at_firstn by lia. apply firstn_all. Qed.

Lemma feed_true_crc c s :
  wf s ->
  wf (exec (feed order c) s) /\
  true_crc (exec (feed order c) s) = bit_serial_crc (true_crc s) (snd c).
Proof.
  intros Hs. unfold feed.
  destruct (crc32process_true_crc (mem_at (fst c) (snd c)) (fst c)
              (Z.of_nat (length (snd c))) s Hs ltac:(lia)) as [Hw Ht].
  split; [exact Hw|]. rewrite Ht, Nat2Z.id, bytes_at_mem_at. reflexivity.
Qed.

Lemma feed_all_true_crc chunks : forall s,
  wf s ->
  wf (exec (feed_all order chunks) s) /\
  true_crc (exec (feed_all order chunks) s) =
  bit_serial_crc (true_crc s) (concat (map snd chunks)).
Proof.
  induction chunks as [|c chunks IH]; intros s Hs.
  - now split.
  - cbn [feed_all map concat]. rewrite exec_bind.
    destruct (feed_true_crc c s Hs) as [Hw Ht].
    destruct (IH _ Hw) as [Hw' Ht'].
    split; [exact Hw'|]. now rewrite Ht', Ht, bit_serial_crc_app.
Qed.

(** [cleverCRC] over a byte sequence is the bit-serial register of the
    specification. *)
Lemma cleverCRC_reference init D :
  is_u32 init ->
  cleverCRC (mem_at 0 D) init 0 (Z.of_nat (length D)) = bit_serial_crc init D.
Proof.
  intros H. rewrite cleverCRC_serial by exact H.
  now rewrite Nat2Z.id, bytes_at_mem_at.
Qed.

Lemma session_result initialValue chunks s0 :
  is_u32 initialValue ->
  eval (session order initialValue chunks) s0 =
  bit_serial_crc initialValue (concat (map snd chunks)).
Proof.
  intros H. unfold session. rewrite !eval_bind.
  change (eval crc32finish ?s) with (true_crc s).
  destruct (feed_all_true_crc chunks _ (crc32start_wf initialValue s0 H)) as [_ Ht].
  now rewrite Ht, crc32start_true_crc.
Qed.

Lemma boundary_true_crc initialValue fed s :
  is_u32 initialValue ->
  boundary order initialValue fed s ->
  wf s /\ true_crc s = bit_serial_crc initialValue fed.
Proof.
  intros H Hb. induction Hb as [s0 | fed s mem p n Hb [Hw Ht] Hn | fed s Hb IH].
  - split; [now apply crc32start_wf | apply crc32start_true_crc].
  - destruct (crc32process_true_crc mem p n s Hw Hn) as [Hw' Ht'].
    split; [exact Hw'|]. now rewrite Ht', Ht, bit_serial_crc_app.
  - exact IH.
Qed.

Lemma lxor_peel a d x : Z.lxor (Z.lxor (Z.lxor a (Z.lxor d x)) a) x = d.
Proof.
  apply Z.bits_inj'; intros i _. rewrite !Z.lxor_spec.
  destruct (Z.testbit a i), (Z.testbit d i), (Z.testbit x i); reflexivity.
Qed.

Lemma lt4_dataWord_eq mem p n s :
  wf s -> (n = 1 \/ n = 2 \/ n = 3) ->
  lt4_dataWord mem p n s = data_word (bytes_at mem p (Z.to_nat n)).
Proof.
  intros Hs Hn. unfold lt4_dataWord, eval. rewrite lt4_prepare_spec by assumption.
  cbn [fst snd]. apply lxor_peel.
Qed.

Lemma data_word_byte mem p n j :
  (n = 1 \/ n = 2 \/ n = 3) -> (j = 0 \/ j = 1 \/ j = 2 \/ j = 3) ->
  byte_of (data_word (bytes_at mem p (Z.to_nat n))) j =
  if j <? n then load8 mem (p + (n - 1 - j)) else 0.
Proof.
  intros Hn Hj. unfold byte_of, load8, data_word.
  change 0xff with (Z.ones 8). rewrite Z.land_ones by lia.
  destruct Hn as [Hn|[Hn|Hn]]; subst n;
    [ change (Z.to_nat 1) with 1%nat; rewrite bytes_at_1
    | change (Z.to_nat 2) with 2%nat; rewrite bytes_at_2
    | change (Z.to_nat 3) with 3%nat; rewrite bytes_at_3 ];
    cbn [fold_left]; rewrite Z.shiftl_0_l, Z.lor_0_l;
    destruct Hj as [Hj|[Hj|[Hj|Hj]]]; subst j;
    cbn [Z.ltb Z.compare Pos.compare Pos.compare_cont Z.mul Pos.mul Z.sub Z.opp Z.add Z.pos_sub Pos.pred_double Z.double Z.succ_double Z.pred_double Pos.add Pos.succ];
    rewrite ?Z.add_0_r;
    repeat match goal with
           | |- context [byte.unsigned ?b] =>
               let x := fresh "x" in
               let Hx := fresh "Hx" in
               pose proof (byte.unsigned_range b) as Hx;
               set (x := byte.unsigned b) in *; clearbody x
           end;
    repeat match goal with
           | H : 0 <= ?x < 2 ^ 8 |- _ =>
               rewrite <- (Z.mod_small x (2 ^ 8) H); clear H
           end;
    Z.bitblast; neg_bits.
Qed.

Lemma words_at_be_words mem q : forall p,
  words_at mem p q = be_words (bytes_at mem p (4 * q)).
Proof.
  induction q as [|q IH]; intros p; [reflexivity|].
  replace (4 * S q)%nat with (4 + 4 * q)%nat by lia.
  rewrite bytes_at_add, bytes_at_4. cbn [words_at app be_words].
  now rewrite IH, bytes_at_4.
Qed.

Lemma be_words_app (q : nat) : forall a b,
  length a = (4 * q)%nat -> be_words (a ++ b) = be_words a ++ be_words b.
Proof.
  induction q as [|q IH]; intros a b Ha.
  - destruct a; [reflexivity | cbn [length] in Ha; lia].
  - destruct a as [|a0 [|a1 [|a2 [|a3 a]]]]; cbn [length] in Ha; try lia.
    cbn [app be_words]. rewrite IH by lia. reflexivity.
Qed.

Lemma xor_first_0 ws : xor_first 0 ws = ws.
Proof. destruct ws; [reflexivity|]. cbn. now rewrite Z.lxor_0_r. Qed.

(** A call on a word-aligned range of whole words never reaches the
    sub-word corrector. *)
Lemma feed_whole_words c s :
  wf s -> whole_words c -> snd c <> [] ->
  wf (exec (feed order c) s) /\
  extraCRC (exec (feed order c) s) = 0 /\
  bus (exec (feed order c) s) =
  bus s ++ map EvWrite (xor_first (extraCRC s) (be_words (snd c))).
Proof.
  intros Hs [Ha [q Hq]] Hne. destruct c as [p bs]. cbn [fst snd] in *.
  destruct q as [|q]; [destruct bs; [congruence | cbn [length] in Hq; lia]|].
  unfold feed, crc32process, exec, bind. cbn [fst snd].
  assert (Eh : head_phase order (mem_at p bs) p (Z.of_nat (length bs)) s =
               ((p, Z.of_nat (length bs)), s)).
  { unfold head_phase. rewrite Ha. reflexivity. }
  rewrite Eh, Hq.
  replace (Z.of_nat (4 * S q)) with (4 * Z.of_nat (S q) + 0) by lia.
  rewrite bulk_phase_words by (try assumption; lia).
  unfold tail_phase. cbn [Z.eqb negb ret snd periphCRC extraCRC bus].
  split; [|split].
  - split; cbn [periphCRC extraCRC]; [|unfold is_u32; lia].
    apply bit_serial_crc_is_u32, true_crc_is_u32, Hs.
  - reflexivity.
  - rewrite <- (bytes_at_mem_at p bs) at 3. rewrite Hq, <- words_at_be_words.
    reflexivity.
Qed.

Lemma feed_empty p s : feed order (p, []) s = (tt, s).
Proof.
  unfold feed, crc32process, bind. cbn [fst snd length Z.of_nat].
  unfold head_phase. cbv zeta.
  destruct (Z.eqb_spec 0 (p mod 4)) as [E|E]; cbn [negb].
  - reflexivity.
  - replace (if 4 - p mod 4 >? 0 then 0 else 4 - p mod 4) with 0.
    + reflexivity.
    + pose proof (Z.mod_pos_bound p 4 ltac:(lia)).
      destruct (Z.gtb_spec (4 - p mod 4) 0); lia.
Qed.

Lemma feed_all_whole_words chunks : forall s,
  wf s -> Forall whole_words chunks ->
  bus (exec (feed_all order chunks) s) =
  bus s ++ map EvWrite (xor_first (extraCRC s) (be_words (concat (map snd chunks)))) /\
  (concat (map snd chunks) <> [] -> extraCRC (exec (feed_all order chunks) s) = 0) /\
  (concat (map snd chunks) = [] -> extraCRC (exec (feed_all order chunks) s) = extraCRC s).
Proof.
  induction chunks as [|c chunks IH]; intros s Hs Hall.
  - cbn. rewrite app_nil_r. repeat split; congruence.
  - inversion Hall as [|c' chunks' Hc Hrest]; subst.
    cbn [feed_all map concat]. rewrite exec_bind.
    destruct c as [p bs]. destruct bs as [|b bs].
    + unfold exec at 2 4 6. rewrite feed_empty. cbn [snd app]. now apply IH.
    + destruct (feed_whole_words (p, b :: bs) s Hs Hc ltac:(discriminate)) as (Hw & He & Hb).
      destruct (IH _ Hw Hrest) as (Hb' & He' & He'').
      destruct Hc as [_ [q Hq]]. cbn [snd] in *.
      split; [|split].
      * rewrite Hb', Hb, He, xor_first_0, (be_words_app q) by exact Hq.
        rewrite <- app_assoc, <- map_app. do 2 f_equal.
        destruct q as [|q]; [cbn [length] in Hq; lia|].
        destruct bs as [|b1 [|b2 [|b3 bs]]]; cbn [length] in Hq; try lia.
        reflexivity.
      * intros _. destruct (concat (map snd chunks)) as [|x l] eqn:E.
        -- rewrite He'' by reflexivity. exact He.
        -- apply He'. discriminate.
      * discriminate.
Qed.

(* ================================================================== *)
(** * The properties of the protocol *)

(** C1.  For every byte sequence [D], every 32-bit initial value and every
    way of cutting [D] into consecutive ranges, each handed to its own
    [crc32process] call at an arbitrary address (hence any alignment),
    [crc32finish] returns what the reference [cleverCRC] computes over
    [D] from the same initial value, which is the bit-serial register
    with polynomial 0x04C11DB7 that takes the bits of each byte most
    significant first. *)
Theorem session_equals_cleverCRC
        (D : list byte) (initialValue : Z) (chunks : list (Z * list byte))
        (s0 : state) :
  is_u32 initialValue ->
  concat (map snd chunks) = D ->
  eval (session order initialValue chunks) s0 =
    cleverCRC (mem_at 0 D) initialValue 0 (Z.of_nat (length D)) /\
  eval (session order initialValue chunks) s0 = bit_serial_crc initialValue D.
Proof.
  intros HI HD. subst D.
  rewrite cleverCRC_reference by exact HI.
  split; apply session_result, HI.
Qed.

(** C2.  At every boundary between the operations of a session (after
    [crc32start], after each [crc32process], at [crc32finish]) the
    peripheral reading XOR [extraCRC] is the CRC of all bytes fed so far
    from the session's initial value, as the bit-serial register and as
    [cleverCRC] compute it. *)
Theorem boundary_invariant (initialValue : Z) (fed : list byte) (s : state) :
  is_u32 initialValue ->
  boundary order initialValue fed s ->
  Z.lxor (eval CRC_READ s) (extraCRC s) = bit_serial_crc initialValue fed /\
  Z.lxor (eval CRC_READ s) (extraCRC s) =
    cleverCRC (mem_at 0 fed) initialValue 0 (Z.of_nat (length fed)) /\
  eval crc32finish s = bit_serial_crc initialValue fed.
Proof.
  intros HI Hb.
  destruct (boundary_true_crc initialValue fed s HI Hb) as [_ Ht].
  rewrite cleverCRC_reference by exact HI.
  repeat split; exact Ht.
Qed.

(** C3 (as the code has it).  For [n] in 1..3 and any prior state,
    [crc32lt4bytes] takes [oldTrueCRC] = reading XOR [extraCRC], issues
    exactly one write and no reset, and leaves
    [extraCRC = oldTrueCRC << 8n].  The written word XOR the reading is
    the data word XOR [oldTrueCRC >> (32 - 8n)], where the data word holds
    [pData[0..n-1]] in its [n] least-significant byte positions,
    [pData[0]] the most significant among the [n]; the peripheral ends up
    where a cleared peripheral would after being written that value. *)
Theorem crc32lt4bytes_one_write (mem : memory) (pData n : Z) (s : state) :
  wf s -> (n = 1 \/ n = 2 \/ n = 3) ->
  let reading := eval CRC_READ s in
  let oldTrueCRC := Z.lxor reading (extraCRC s) in
  let dataWord := data_word (bytes_at mem pData (Z.to_nat n)) in
  exists word,
    crc32lt4bytes order mem pData n s =
      CRC_PROCESS_WORD order word
        (mkState (periphCRC s) (shl32 oldTrueCRC (8 * n)) (bus s)) /\
    bus (exec (crc32lt4bytes order mem pData n) s) = bus s ++ [EvWrite word] /\
    Z.lxor word reading = Z.lxor dataWord (Z.shiftr oldTrueCRC (32 - 8 * n)) /\
    extraCRC (exec (crc32lt4bytes order mem pData n) s) = shl32 oldTrueCRC (8 * n) /\
    periphCRC (exec (crc32lt4bytes order mem pData n) s) =
      periphCRC (exec (CRC_PROCESS_WORD order (Z.lxor word reading))
                      (mkState 0 (extraCRC s) (bus s))).
Proof.
  intros Hs Hn reading oldTrueCRC dataWord.
  assert (Hc : is_u32 (true_crc s)) by now apply true_crc_is_u32.
  assert (Hl : (length (bytes_at mem pData (Z.to_nat n)) = 1 \/
                length (bytes_at mem pData (Z.to_nat n)) = 2 \/
                length (bytes_at mem pData (Z.to_nat n)) = 3)%nat)
    by (rewrite length_bytes_at; lia).
  assert (HX : is_u32 (Z.lxor dataWord (Z.shiftr oldTrueCRC (32 - 8 * n)))).
  { apply lxor_is_u32; [apply data_word_is_u32, Hl|].
    apply shiftr_is_u32; [exact Hc | lia]. }
  assert (Hw : is_u32 (lt4_val mem pData n s))
    by (apply lxor_is_u32; [apply Hs | exact HX]).
  assert (Hx : Z.lxor (lt4_val mem pData n s) reading =
               Z.lxor dataWord (Z.shiftr oldTrueCRC (32 - 8 * n))).
  { unfold lt4_val, reading, eval, CRC_READ. cbn [fst].
    rewrite Z.lxor_comm, <- Z.lxor_assoc, Z.lxor_nilpotent, Z.lxor_0_l. reflexivity. }
  exists (lt4_val mem pData n s).
  unfold exec. rewrite crc32lt4bytes_spec by assumption. cbn [snd periphCRC extraCRC bus].
  split; [|split; [|split; [|split]]].
  - rewrite process_word_spec by (cbn [periphCRC]; first [apply Hs | exact Hw]).
    cbn [periphCRC extraCRC bus].
    rewrite (Z.lxor_comm (periphCRC s)).
    change (Z.lxor (lt4_val mem pData n s) (periphCRC s))
      with (Z.lxor (lt4_val mem pData n s) reading).
    rewrite Hx. reflexivity.
  - reflexivity.
  - exact Hx.
  - reflexivity.
  - rewrite process_word_spec; cbn [periphCRC extraCRC bus snd].
    + rewrite Z.lxor_0_l, Hx. reflexivity.
    + unfold is_u32. lia.
    + rewrite Hx. exact HX.
Qed.

(** C4 (as the code has it).  For [n] in 1..3 the data word that
    [crc32lt4bytes] folds into [val] holds [pData[0..n-1]] in its [n]
    least-significant byte positions, [pData[0]] the most significant
    among the [n], and zero in every other byte position.  The local
    [dataBytes] holds that word for [n] = 1 and 2 and stays zero for
    [n] = 3, where the bytes go into [val] directly. *)
Theorem lt4_dataWord_low_bytes (mem : memory) (pData n j : Z) (s : state) :
  wf s -> (n = 1 \/ n = 2 \/ n = 3) -> 0 <= j < 4 ->
  byte_of (lt4_dataWord mem pData n s) j =
    (if j <? n then load8 mem (pData + (n - 1 - j)) else 0) /\
  is_u32 (lt4_dataWord mem pData n s) /\
  fst (eval (lt4_prepare mem pData n) s) =
    (if n =? 3 then 0 else lt4_dataWord mem pData n s).
Proof.
  intros Hs Hn Hj. rewrite lt4_dataWord_eq by assumption.
  split; [|split].
  - apply data_word_byte; [exact Hn | lia].
  - apply data_word_is_u32. rewrite length_bytes_at. lia.
  - unfold eval. rewrite lt4_prepare_spec by assumption. reflexivity.
Qed.

(** C5 (as the code has it).  In a session whose ranges all start at a
    word address and hold whole words, so that the sub-word corrector
    never runs, the words written after the reset are the data words in
    order with [extraCRC] XORed into the very first one only, and
    [extraCRC] is zero once that word has been written. *)
Theorem correction_in_first_word_only
        (initialValue : Z) (chunks : list (Z * list byte)) (s0 : state) :
  is_u32 initialValue ->
  Forall whole_words chunks ->
  bus (exec (crc32start initialValue ;;; feed_all order chunks) s0) =
    bus s0 ++ EvReset ::
      map EvWrite (xor_first (Z.lxor 0xffffffff initialValue)
                             (be_words (concat (map snd chunks)))) /\
  (concat (map snd chunks) <> [] ->
   extraCRC (exec (crc32start initialValue ;;; feed_all order chunks) s0) = 0).
Proof.
  intros HI Hall. rewrite exec_bind.
  destruct (feed_all_whole_words chunks _ (crc32start_wf initialValue s0 HI) Hall)
    as (Hb & He & _).
  split; [|exact He].
  rewrite Hb. unfold exec at 1 2. rewrite crc32start_spec.
  cbn [snd bus extraCRC]. now rewrite <- app_assoc.
Qed.

(** C6.  [crc32start] is total: for every 32-bit initial value it resets
    the peripheral to 0xFFFFFFFF, sets [extraCRC] to 0xFFFFFFFF XOR the
    initial value, and does nothing else (one reset on the bus). *)
Theorem crc32start_effect (initialValue : Z) (s : state) :
  is_u32 initialValue ->
  crc32start initialValue s =
    (tt, mkState 0xffffffff (Z.lxor 0xffffffff initialValue) (bus s ++ [EvReset])) /\
  wf (exec (crc32start initialValue) s).
Proof.
  intros HI. split; [apply crc32start_spec | now apply crc32start_wf].
Qed.

(** C7.  [crc32finish] returns the peripheral reading XOR [extraCRC] and
    leaves the state (peripheral, [extraCRC], bus) as it found it. *)
Theorem crc32finish_reads_only (s : state) :
  crc32finish s = (Z.lxor (eval CRC_READ s) (extraCRC s), s).
Proof. reflexivity. Qed.

(** C8.  [crc32finish] right after [crc32start I] returns [I]. *)
Theorem empty_session_returns_initial (initialValue : Z) (s0 : state) :
  eval (crc32start initialValue ;;; crc32finish) s0 = initialValue /\
  eval (session order initialValue []) s0 = initialValue.
Proof.
  split.
  - rewrite eval_bind. apply crc32start_true_crc.
  - unfold session. rewrite !eval_bind. apply crc32start_true_crc.
Qed.

(** C9.  The worked example: initial value 0xFFFFFFFF and the eleven
    bytes 12 34 56 78 9A BC DE F0 A6 B7 C8 at a word address.  After the
    head and bulk phases (two full words) the peripheral reads
    0x7D24A31B; after the three-byte tail [crc32finish] returns
    0xF7832A2F. *)
Theorem worked_example (pData : Z) (s0 : state) :
  pData mod 4 = 0 ->
  eval CRC_READ
       (exec ('(p, n) <- head_phase order (mem_at pData worked_bytes) pData 11 ;;
              bulk_phase order (mem_at pData worked_bytes) p n)
             (exec (crc32start 0xffffffff) s0)) = 0x7D24A31B /\
  eval (crc32start 0xffffffff ;;;
        crc32process order (mem_at pData worked_bytes) pData 11 ;;;
        crc32finish) s0 = 0xF7832A2F.
Proof.
  intros Ha.
  assert (HI : is_u32 0xffffffff) by (unfold is_u32; lia).
  pose proof (crc32start_wf 0xffffffff s0 HI) as Hw.
  pose proof (crc32start_true_crc 0xffffffff s0) as Ht.
  split.
  - unfold exec at 1. unfold bind at 1.
    assert (Eh : head_phase order (mem_at pData worked_bytes) pData 11
                   (exec (crc32start 0xffffffff) s0) =
                 ((pData, 11), exec (crc32start 0xffffffff) s0)).
    { unfold head_phase. rewrite Ha. reflexivity. }
    rewrite Eh.
    change 11 with (4 * Z.of_nat 2 + 3).
    rewrite bulk_phase_words by (try assumption; lia).
    cbn [snd eval CRC_READ fst periphCRC]. rewrite Ht.
    rewrite (bytes_at_mem_at_firstn worked_bytes pData (4 * 2)) by (cbn; lia).
    vm_compute. reflexivity.
  - rewrite !eval_bind. change (eval crc32finish ?s) with (true_crc s).
    destruct (crc32process_true_crc (mem_at pData worked_bytes) pData 11 _ Hw
                ltac:(lia)) as [_ Hp].
    rewrite Hp, Ht.
    rewrite (bytes_at_mem_at_firstn worked_bytes pData (Z.to_nat 11)) by (cbn; lia).
    vm_compute. reflexivity.
Qed.

(** C10.  In every [crc32process] call whose bulk phase has at least one
    word to transfer, whatever [extraCRC] holds when the bulk phase
    starts is XORed into the first word transferred by that call and
    [extraCRC] is then zero; the words that follow in the call are
    written as they are.  The step keeps the running CRC: if reading XOR
    [extraCRC] was the CRC of the bytes fed so far, it is afterwards the
    CRC of those bytes and the four of this word. *)
Theorem bulk_first_word_takes_extraCRC
        (mem : memory) (pData numBytes : Z) (s : state) :
  wf s -> 0 <= numBytes ->
  let p1 := fst (eval (head_phase order mem pData numBytes) s) in
  let n1 := snd (eval (head_phase order mem pData numBytes) s) in
  let s1 := exec (head_phase order mem pData numBytes) s in
  4 <= n1 ->
  let s2 := exec (first_word order mem p1) s1 in
  let s3 := exec (bulk_phase order mem p1 n1) s1 in
  bus s2 = bus s1 ++
           [EvWrite (Z.lxor (REV order (load32 order mem p1)) (extraCRC s1))] /\
  extraCRC s2 = 0 /\
  (forall initialValue fed,
      Z.lxor (periphCRC s1) (extraCRC s1) = bit_serial_crc initialValue fed ->
      Z.lxor (periphCRC s2) (extraCRC s2) =
      bit_serial_crc initialValue (fed ++ bytes_at mem p1 4)) /\
  bus s3 = bus s2 ++ map EvWrite (words_at mem (p1 + 4) (Z.to_nat (n1 / 4) - 1)) /\
  extraCRC s3 = 0.
Proof.
  intros Hs Hn p1 n1 s1 Hn1 s2 s3.
  destruct (head_phase_spec mem pData numBytes s Hs Hn)
    as (k & s1' & Eh & Hk & Hk4 & _ & Hw1 & _).
  assert (Es1 : s1 = s1') by (unfold s1, exec; now rewrite Eh).
  assert (Ep1 : p1 = pData + k) by (unfold p1, eval; now rewrite Eh).
  assert (En1 : n1 = numBytes - k) by (unfold n1, eval; now rewrite Eh).
  rewrite <- Es1 in Hw1. clear Eh s1' Es1.
  assert (E2 : s2 = mkState (bit_serial_crc (true_crc s1) (bytes_at mem p1 4)) 0
                 (bus s1 ++ [EvWrite (Z.lxor (place_bytes 0 (bytes_at mem p1 4))
                                             (extraCRC s1))])).
  { unfold s2, exec. now rewrite first_word_spec by exact Hw1. }
  assert (Hd : n1 = 4 * Z.of_nat (S (Z.to_nat (n1 / 4) - 1)) + n1 mod 4).
  { assert (1 <= n1 / 4) by (apply Z.div_le_lower_bound; lia).
    replace (Z.of_nat (S (Z.to_nat (n1 / 4) - 1))) with (n1 / 4) by lia.
    apply Z.div_mod. lia. }
  assert (E3 : s3 = mkState
                 (bit_serial_crc (true_crc s1)
                    (bytes_at mem p1 (4 * S (Z.to_nat (n1 / 4) - 1)))) 0
                 (bus s1 ++ EvWrite (Z.lxor (place_bytes 0 (bytes_at mem p1 4))
                                            (extraCRC s1))
                         :: map EvWrite (words_at mem (p1 + 4) (Z.to_nat (n1 / 4) - 1)))).
  { unfold s3, exec. rewrite Hd at 1.
    rewrite bulk_phase_words;
      [reflexivity | exact Hw1 | apply Z.mod_pos_bound; lia]. }
  rewrite E2, E3, REV_load32. cbn [periphCRC extraCRC bus].
  split; [reflexivity|]. split; [reflexivity|]. split; [|split].
  - intros initialValue fed Hfed. fold (true_crc s1) in Hfed.
    now rewrite Z.lxor_0_r, Hfed, bit_serial_crc_app.
  - now rewrite <- app_assoc.
  - reflexivity.
Qed.

End Facts.

(* ================================================================== *)
(** * Where the code departs from the specification's wording *)

(** C4, as the specification words it, fails.  For one byte 0xA6 the
    specification puts the byte in the most significant byte position
    (0xA6000000); the code forms 0x000000A6, in the local [dataBytes] and
    in what reaches [val]. *)
Lemma dataWord_not_in_top_bytes :
  lt4_dataWord (mem_at 0 [Byte.xa6]) 0 1 demo_tail_state <>
    dataWord_msb (bytes_at (mem_at 0 [Byte.xa6]) 0 1) /\
  dataWord_msb (bytes_at (mem_at 0 [Byte.xa6]) 0 1) = 0xa6000000 /\
  lt4_dataWord (mem_at 0 [Byte.xa6]) 0 1 demo_tail_state = 0x000000a6 /\
  fst (eval (lt4_prepare (mem_at 0 [Byte.xa6]) 0 1) demo_tail_state) = 0x000000a6 /\
  byte_of (lt4_dataWord (mem_at 0 [Byte.xa6]) 0 1 demo_tail_state) 3 = 0.
Proof.
  split; [vm_compute; discriminate|].
  repeat split; vm_compute; reflexivity.
Qed.

(** C3, with the data word as the specification words it, fails.  On a
    peripheral reading 0x7D24A31B with [extraCRC = 0] and the three bytes
    A6 B7 C8, the one word written is 0x7DFF3070; XORed with the reading
    it gives 0x00DB936B, the bytes in the low positions XOR the top three
    bytes of the old CRC.  The data word with the bytes in the three
    most significant positions, XORed with [oldTrueCRC >> 8], is
    0xA6CAECA3. *)
Lemma one_write_not_with_top_bytes :
  bus (exec (crc32lt4bytes LittleEndian demo_tail_mem 0x108 3) demo_tail_state) =
    bus demo_tail_state ++ [EvWrite 0x7DFF3070] /\
  Z.lxor 0x7DFF3070 (eval CRC_READ demo_tail_state) = 0x00DB936B /\
  Z.lxor (dataWord_msb (bytes_at demo_tail_mem 0x108 (Z.to_nat 3)))
         (Z.shiftr (Z.lxor (eval CRC_READ demo_tail_state) (extraCRC demo_tail_state))
                   (32 - 8 * 3)) = 0xA6CAECA3 /\
  Z.lxor 0x7DFF3070 (eval CRC_READ demo_tail_state) <>
  Z.lxor (dataWord_msb (bytes_at demo_tail_mem 0x108 (Z.to_nat 3)))
         (Z.shiftr (Z.lxor (eval CRC_READ demo_tail_state) (extraCRC demo_tail_state))
                   (32 - 8 * 3)).
Proof.
  split; [vm_compute; reflexivity|].
  split; [vm_compute; reflexivity|].
  split; [vm_compute; reflexivity|].
  vm_compute. discriminate.
Qed.

(** C5, as the specification words it, fails.  Start with initial value
    1, feed one byte at a word address, then four bytes at a word
    address.  The first word written comes from the sub-word corrector and
    leaves [extraCRC = 0x100], not zero; the second call then XORs that
    0x100 into its first word (the data word is 0, the word written is
    0x100). *)
Lemma correction_reused_after_subword :
  bus (exec (crc32start 1 ;;; feed LittleEndian (0, [Byte.x00])) demo_state) =
    [EvReset; EvWrite 0xffffffff] /\
  extraCRC (exec (crc32start 1 ;;; feed LittleEndian (0, [Byte.x00])) demo_state) =
    0x100 /\
  REV LittleEndian
      (load32 LittleEndian (mem_at 0 [Byte.x00; Byte.x00; Byte.x00; Byte.x00]) 0) = 0 /\
  bus (exec (crc32start 1 ;;; feed LittleEndian (0, [Byte.x00]) ;;;
             feed LittleEndian (0, [Byte.x00; Byte.x00; Byte.x00; Byte.x00]))
            demo_state) =
    [EvReset; EvWrite 0xffffffff; EvWrite 0x100].
Proof. repeat split; vm_compute; reflexivity. Qed.

(* ================================================================== *)
(** * Running the code *)

(** The worked example of the document at address 0x0100, evaluated on
    the code itself for both byte orders: the state after the call and
    the value [crc32finish] returns. *)
Example worked_example_run_little_endian :
  (crc32start 0xffffffff ;;;
   crc32process LittleEndian (mem_at 0x100 worked_bytes) 0x100 11 ;;;
   crc32finish) demo_state =
  (0xF7832A2F,
   mkState 0xEC832A2F 0x1B000000
           [EvReset; EvWrite 0x12345678; EvWrite 0x9ABCDEF0; EvWrite 0x7DFF3070]).
Proof. vm_compute. reflexivity. Qed.

Example worked_example_run_big_endian :
  (crc32start 0xffffffff ;;;
   crc32process BigEndian (mem_at 0x100 worked_bytes) 0x100 11 ;;;
   crc32finish) demo_state =
  (0xF7832A2F,
   mkState 0xEC832A2F 0x1B000000
           [EvReset; EvWrite 0x12345678; EvWrite 0x9ABCDEF0; EvWrite 0x7DFF3070]).
Proof. vm_compute. reflexivity. Qed.

(** The same bytes from the odd address 0x0101 with initial value
    0x55443322, as in the "Start Address" example of the document, agree
    with [cleverCRC]. *)
Example unaligned_run_agrees :
  eval (session LittleEndian 0x55443322 [(0x101, worked_bytes)]) demo_state =
  cleverCRC (mem_at 0x101 worked_bytes) 0x55443322 0x101 11.
Proof. vm_compute. reflexivity. Qed.

(* ================================================================== *)
(** * The statements at concrete inputs *)

Lemma is_u32_const_aaaaaaaa : is_u32 0xaaaaaaaa.
Proof. unfold is_u32. lia. Defined.

Lemma wf_demo_tail_state : wf demo_tail_state.
Proof. split; unfold is_u32; cbn; lia. Defined.

Lemma session_equals_cleverCRC_witness :
  is_u32 0xaaaaaaaa /\
  concat (map snd demo_chunks) = worked_bytes /\
  eval (session LittleEndian 0xaaaaaaaa demo_chunks) demo_state =
    cleverCRC (mem_at 0 worked_bytes) 0xaaaaaaaa 0 (Z.of_nat (length worked_bytes)).
Proof.
  split; [exact is_u32_const_aaaaaaaa|]. split; [reflexivity|].
  exact (proj1 (session_equals_cleverCRC LittleEndian worked_bytes 0xaaaaaaaa
                  demo_chunks demo_state is_u32_const_aaaaaaaa eq_refl)).
Defined.

Lemma boundary_invariant_witness :
  is_u32 0xaaaaaaaa /\
  boundary LittleEndian 0xaaaaaaaa
    ([] ++ bytes_at (mem_at 1 worked_bytes) 1 (Z.to_nat 6))
    (exec (crc32process LittleEndian (mem_at 1 worked_bytes) 1 6)
          (exec (crc32start 0xaaaaaaaa) demo_state)) /\
  Z.lxor (eval CRC_READ
            (exec (crc32process LittleEndian (mem_at 1 worked_bytes) 1 6)
                  (exec (crc32start 0xaaaaaaaa) demo_state)))
         (extraCRC
            (exec (crc32process LittleEndian (mem_at 1 worked_bytes) 1 6)
                  (exec (crc32start 0xaaaaaaaa) demo_state))) =
    bit_serial_crc 0xaaaaaaaa ([] ++ bytes_at (mem_at 1 worked_bytes) 1 (Z.to_nat 6)).
Proof.
  assert (Hb : boundary LittleEndian 0xaaaaaaaa
                 ([] ++ bytes_at (mem_at 1 worked_bytes) 1 (Z.to_nat 6))
                 (exec (crc32process LittleEndian (mem_at 1 worked_bytes) 1 6)
                       (exec (crc32start 0xaaaaaaaa) demo_state))).
  { apply after_process; [apply after_start | lia]. }
  split; [exact is_u32_const_aaaaaaaa|]. split; [exact Hb|].
  exact (proj1 (boundary_invariant LittleEndian 0xaaaaaaaa _ _ is_u32_const_aaaaaaaa Hb)).
Defined.

Lemma crc32lt4bytes_one_write_witness :
  wf demo_tail_state /\ (3 = 1 \/ 3 = 2 \/ 3 = 3) /\
  exists word,
    bus (exec (crc32lt4bytes LittleEndian demo_tail_mem 0x108 3) demo_tail_state) =
      bus demo_tail_state ++ [EvWrite word] /\
    Z.lxor word (eval CRC_READ demo_tail_state) =
      Z.lxor (data_word (bytes_at demo_tail_mem 0x108 (Z.to_nat 3)))
             (Z.shiftr (Z.lxor (eval CRC_READ demo_tail_state) (extraCRC demo_tail_state))
                       (32 - 8 * 3)).
Proof.
  split; [exact wf_demo_tail_state|]. split; [right; right; reflexivity|].
  destruct (crc32lt4bytes_one_write LittleEndian demo_tail_mem 0x108 3 demo_tail_state
              wf_demo_tail_state (or_intror (or_intror eq_refl)))
    as (word & _ & Hb & Hx & _).
  exists word. split; [exact Hb | exact Hx].
Defined.

Lemma lt4_dataWord_low_bytes_witness :
  wf demo_tail_state /\ (3 = 1 \/ 3 = 2 \/ 3 = 3) /\ 0 <= 1 < 4 /\
  byte_of (lt4_dataWord demo_tail_mem 0x108 3 demo_tail_state) 1 =
    (if 1 <? 3 then load8 demo_tail_mem (0x108 + (3 - 1 - 1)) else 0).
Proof.
  split; [exact wf_demo_tail_state|]. split; [right; right; reflexivity|].
  split; [lia|].
  exact (proj1 (lt4_dataWord_low_bytes demo_tail_mem 0x108 3 1 demo_tail_state
                  wf_demo_tail_state (or_intror (or_intror eq_refl))
                  ltac:(lia))).
Defined.

Lemma demo_word_chunks_whole : Forall whole_words demo_word_chunks.
Proof.
  repeat constructor; cbn.
  - exists 1%nat. reflexivity.
  - exists 2%nat. reflexivity.
Defined.

Lemma correction_in_first_word_only_witness :
  is_u32 0xaaaaaaaa /\ Forall whole_words demo_word_chunks /\
  bus (exec (crc32start 0xaaaaaaaa ;;; feed_all LittleEndian demo_word_chunks)
            demo_state) =
    bus demo_state ++ EvReset ::
      map EvWrite (xor_first (Z.lxor 0xffffffff 0xaaaaaaaa)
                             (be_words (concat (map snd demo_word_chunks)))).
Proof.
  split; [exact is_u32_const_aaaaaaaa|]. split; [exact demo_word_chunks_whole|].
  exact (proj1 (correction_in_first_word_only LittleEndian 0xaaaaaaaa demo_word_chunks
                  demo_state is_u32_const_aaaaaaaa demo_word_chunks_whole)).
Defined.

Lemma crc32start_effect_witness :
  is_u32 0xaaaaaaaa /\
  crc32start 0xaaaaaaaa demo_state =
    (tt, mkState 0xffffffff (Z.lxor 0xffffffff 0xaaaaaaaa) (bus demo_state ++ [EvReset])).
Proof.
  split; [exact is_u32_const_aaaaaaaa|].
  exact (proj1 (crc32start_effect 0xaaaaaaaa demo_state is_u32_const_aaaaaaaa)).
Defined.

Lemma worked_example_witness :
  0x100 mod 4 = 0 /\
  eval (crc32start 0xffffffff ;;;
        crc32process LittleEndian (mem_at 0x100 worked_bytes) 0x100 11 ;;;
        crc32finish) demo_state = 0xF7832A2F.
Proof.
  split; [reflexivity|].
  exact (proj2 (worked_example LittleEndian 0x100 demo_state eq_refl)).
Defined.

Lemma bulk_first_word_takes_extraCRC_witness :
  wf demo_tail_state /\ 0 <= 11 /\
  4 <= snd (eval (head_phase LittleEndian (mem_at 1 worked_bytes) 1 11) demo_tail_state) /\
  extraCRC
    (exec (first_word LittleEndian (mem_at 1 worked_bytes)
             (fst (eval (head_phase LittleEndian (mem_at 1 worked_bytes) 1 11)
                        demo_tail_state)))
          (exec (head_phase LittleEndian (mem_at 1 worked_bytes) 1 11) demo_tail_state)) = 0.
Proof.
  assert (H0 : 0 <= 11) by lia.
  assert (H4 : 4 <= snd (eval (head_phase LittleEndian (mem_at 1 worked_bytes) 1 11)
                              demo_tail_state))
    by (vm_compute; discriminate).
  split; [exact wf_demo_tail_state|]. split; [exact H0|]. split; [exact H4|].
  exact (proj1 (proj2 (bulk_first_word_takes_extraCRC LittleEndian
                         (mem_at 1 worked_bytes) 1 11 demo_tail_state
                         wf_demo_tail_state H0 H4))).
Defined.
